(** * Auto-Gather documentation server: ingestion and search core

    A shallow embedding of the services under [src/core/services]
    (storage, parser, crawler, search) and of the tool handlers of
    [src/core/tools.ts] that manage the sources, with the properties of
    the specification that are stated about them and further properties
    read off the code.

    Conventions of the embedding.
    - A JavaScript [Date] is its millisecond count since the epoch, a [Z].
    - A JavaScript string is a [string] of 8-bit characters; case folding
      and white space are those of ASCII.
    - A call that may throw returns a [Result]; [Throw msg] carries the
      message of the [Error].
    - The SQLite tables are finite maps keyed by their primary key.  A
      statement of the storage service is taken to succeed: failures of the
      database engine itself, the check of the reference from a status
      row to its source among them, are outside the embedding.
    - Libraries the services call (hashing, front-matter and HTML parsing,
      PDF decoding, JSON parsing, the fuzzy matcher, the wall clock) are the
      fields of the class [Runtime]; nothing is assumed about them. *)

From Stdlib Require Import ZArith QArith String Ascii List Bool Lia.
From Stdlib Require OrderedTypeEx.
From stdpp Require Import base numbers option list gmap strings pretty fin_maps sorting.

Set Warnings "-register-all,-clear-no-such-hyp".

Local Open Scope Z_scope.
Local Open Scope list_scope.

(** ** Results of calls that may throw *)

Inductive Result (A : Type) : Type :=
| Ok (a : A)
| Throw (msg : string).
Arguments Ok {A} a.
Arguments Throw {A} msg.

(** ** JavaScript helpers *)

Module JS.

(** [x || null] on a number: 0 is falsy. *)
Definition truthyZ (o : option Z) : option Z :=
  match o with
  | Some 0 => None
  | _ => o
  end.

(** [x || null] on a string: the empty string is falsy. *)
Definition truthyStr (o : option string) : option string :=
  match o with
  | Some EmptyString => None
  | _ => o
  end.

(** [s || d] on strings. *)
Definition orStr (s d : string) : string :=
  match s with
  | EmptyString => d
  | _ => s
  end.

(** [Array.prototype.slice(0, n)] for an integral [n]: a negative [n]
    counts from the end of the array. *)
Definition slice0 {A : Type} (n : Z) (l : list A) : list A :=
  if 0 <=? n then take (Z.to_nat n) l
  else take (length l - Z.to_nat (- n))%nat l.

(** [Array.prototype.join(sep)]. *)
Fixpoint join (sep : string) (l : list string) : string :=
  match l with
  | [] => EmptyString
  | [s] => s
  | s :: rest => s +:+ sep +:+ join sep rest
  end.

(** White space of [String.prototype.trim] and of the regular expression
    class [\s], restricted to ASCII. *)
Definition isSpace (c : ascii) : bool :=
  let n := nat_of_ascii c in
  ((n =? 32) || (n =? 9) || (n =? 10) || (n =? 11) || (n =? 12) || (n =? 13))%nat.

Fixpoint trimStart (s : string) : string :=
  match s with
  | String c s' => if isSpace c then trimStart s' else s
  | EmptyString => EmptyString
  end.

(** [trimEnd] drops the trailing white space: a character is kept when
    something other than white space follows or it is not white space. *)
Fixpoint trimEnd (s : string) : string :=
  match s with
  | EmptyString => EmptyString
  | String c s' =>
      match trimEnd s' with
      | EmptyString => if isSpace c then EmptyString else String c EmptyString
      | t => String c t
      end
  end.

Definition trim (s : string) : string := trimEnd (trimStart s).

(** [s.replace(/\s+/g, ' ')]: every maximal run of white space becomes
    one blank. *)
Fixpoint collapseSpaces (in_run : bool) (s : string) : string :=
  match s with
  | EmptyString => EmptyString
  | String c s' =>
      if isSpace c
      then (if in_run then collapseSpaces true s'
            else String " "%char (collapseSpaces true s'))
      else String c (collapseSpaces false s')
  end.

(** [s.split(/\s+/).length]: the number of fields between runs of white
    space, empty fields at both ends included. *)
Fixpoint countFields (in_run : bool) (s : string) : nat :=
  match s with
  | EmptyString => 1
  | String c s' =>
      if isSpace c
      then (if in_run then countFields true s' else S (countFields true s'))
      else countFields false s'
  end.

(** [s.split('\n')]. *)
Fixpoint splitLines (cur : string) (s : string) : list string :=
  match s with
  | EmptyString => [cur]
  | String c s' =>
      if Ascii.eqb c "010"%char
      then cur :: splitLines EmptyString s'
      else splitLines (cur +:+ String c EmptyString) s'
  end.

(** ASCII [toLowerCase] / [toUpperCase]. *)
Definition lowerChar (c : ascii) : ascii :=
  let n := nat_of_ascii c in
  if ((65 <=? n) && (n <=? 90))%nat then ascii_of_nat (n + 32) else c.

Definition upperChar (c : ascii) : ascii :=
  let n := nat_of_ascii c in
  if ((97 <=? n) && (n <=? 122))%nat then ascii_of_nat (n - 32) else c.

Fixpoint toLowerCase (s : string) : string :=
  match s with
  | EmptyString => EmptyString
  | String c s' => String (lowerChar c) (toLowerCase s')
  end.

(** [s.replace(pat, rep)] with a string pattern: the first occurrence
    only. *)
Fixpoint replaceFirst (pat rep s : string) : string :=
  if String.prefix pat s
  then rep +:+ String.substring (String.length pat) (String.length s - String.length pat) s
  else match s with
       | EmptyString => EmptyString
       | String c s' => String c (replaceFirst pat rep s')
       end.

(** [s.replace(/c/g, rep)] for a one-character pattern. *)
Fixpoint replaceAllChar (c : ascii) (rep : string) (s : string) : string :=
  match s with
  | EmptyString => EmptyString
  | String d s' =>
      if Ascii.eqb d c then rep +:+ replaceAllChar c rep s'
      else String d (replaceAllChar c rep s')
  end.

End JS.

(** ** Data model ([models/document.ts], [models/source.ts]) *)

Definition Timestamp := Z.

Inductive DocumentType := markdown | html | pdf | text | json.

#[global] Instance DocumentType_eq_dec : EqDecision DocumentType.
Proof. solve_decision. Defined.

(** Values of the open [metadata] mapping. *)
Inductive JValue :=
| JNull
| JBool (b : bool)
| JNum (n : Z)
| JStr (s : string)
| JArr (items : list JValue)
| JObj (fields : list (string * JValue)).

Definition Metadata := list (string * JValue).

(** Writing a key of an object: an existing key keeps its position. *)
Fixpoint objSet (k : string) (v : JValue) (o : Metadata) : Metadata :=
  match o with
  | [] => [(k, v)]
  | (k', v') :: rest =>
      if String.eqb k k' then (k, v) :: rest else (k', v') :: objSet k v rest
  end.

Fixpoint objGet (k : string) (o : Metadata) : option JValue :=
  match o with
  | [] => None
  | (k', v') :: rest => if String.eqb k k' then Some v' else objGet k rest
  end.

Record Document := mkDocument {
  doc_id : string;
  doc_title : string;
  doc_content : string;
  doc_type : DocumentType;
  doc_sourceId : string;
  doc_sourcePath : string;
  doc_metadata : option Metadata;
  doc_tags : option (list string);
  doc_createdAt : Timestamp;
  doc_updatedAt : Timestamp;
  doc_size : option Z;
  doc_checksum : option string
}.

Inductive SourceType :=
| local
| git
| web
| api
| otherType (name : string).

Record Filters := mkFilters {
  include : option (list string);
  exclude : option (list string);
  maxDepth : option Z;
  maxSize : option Z
}.

Record SourceConfig := mkSourceConfig {
  src_id : string;
  src_name : string;
  src_type : SourceType;
  src_url : string;
  src_enabled : bool;
  src_schedule : option string;
  src_lastCrawled : option Timestamp;
  src_filters : option Filters
}.

Inductive StatusKind := idle | crawling | success | error.

#[global] Instance StatusKind_eq_dec : EqDecision StatusKind.
Proof. solve_decision. Defined.

Record SourceStatus := mkSourceStatus {
  st_sourceId : string;
  st_status : StatusKind;
  st_lastRun : option Timestamp;
  st_lastError : option string;
  st_documentsFound : nat;
  st_documentsProcessed : nat;
  st_documentsSkipped : nat;
  st_duration : option Z
}.

Record DocumentStats := mkDocumentStats {
  totalDocuments : nat;
  totalSize : Z;
  lastUpdated : Timestamp
}.

(** ** The storage service ([services/storage.ts]) *)

(** The three tables.  [status_writes] is a ghost field: the rows written
    to [source_status], most recent first, kept so that the order of the
    status transitions of a run can be stated. *)
Record Store := mkStore {
  documents : gmap string Document;
  sources : gmap string SourceConfig;
  source_status : gmap string SourceStatus;
  status_writes : list SourceStatus
}.

Definition emptyStore : Store :=
  {| documents := ∅; sources := ∅; source_status := ∅; status_writes := [] |}.

Module StorageService.

(** The row of [saveDocument]: [doc.size || null] and
    [doc.checksum || null]; metadata and tags go through
    [JSON.stringify] and come back through [JSON.parse] unchanged. *)
Definition documentRow (doc : Document) : Document :=
  {| doc_id := doc_id doc;
     doc_title := doc_title doc;
     doc_content := doc_content doc;
     doc_type := doc_type doc;
     doc_sourceId := doc_sourceId doc;
     doc_sourcePath := doc_sourcePath doc;
     doc_metadata := doc_metadata doc;
     doc_tags := doc_tags doc;
     doc_createdAt := doc_createdAt doc;
     doc_updatedAt := doc_updatedAt doc;
     doc_size := JS.truthyZ (doc_size doc);
     doc_checksum := JS.truthyStr (doc_checksum doc) |}.

(** [rowToDocument]: [row.size || undefined], [row.checksum || undefined]. *)
Definition rowToDocument (row : Document) : Document := documentRow row.

(** INSERT OR REPLACE INTO documents. *)
Definition saveDocument (doc : Document) (s : Store) : Store :=
  {| documents := <[doc_id doc := documentRow doc]> (documents s);
     sources := sources s;
     source_status := source_status s;
     status_writes := status_writes s |}.

(** SELECT * FROM documents WHERE id = ?. *)
Definition getDocument (id : string) (s : Store) : option Document :=
  rowToDocument <$> documents s !! id.

(** All rows of the documents table. *)
Definition documentRows (s : Store) : list Document :=
  (map_to_list (documents s)).*2.

(** ORDER BY updated_at DESC. *)
Definition newerFirst (a b : Document) : Prop :=
  doc_updatedAt b <= doc_updatedAt a.

#[global] Instance newerFirst_dec a b : Decision (newerFirst a b).
Proof. unfold newerFirst. apply _. Defined.

(** SELECT * FROM documents WHERE source_id = ? ORDER BY updated_at DESC. *)
Definition getDocumentsBySource (sourceId : string) (s : Store) : list Document :=
  rowToDocument <$>
    merge_sort newerFirst
      (filter (λ d, doc_sourceId d = sourceId) (documentRows s)).

(** DELETE FROM documents WHERE id = ?; the result is [changes > 0]. *)
Definition deleteDocument (id : string) (s : Store) : bool * Store :=
  (bool_decide (is_Some (documents s !! id)),
   {| documents := delete id (documents s);
      sources := sources s;
      source_status := source_status s;
      status_writes := status_writes s |}).

(** SELECT MAX(updated_at) FROM documents: NULL on an empty table. *)
Definition maxUpdatedAt (s : Store) : option Z :=
  foldr (λ d acc, Some (match acc with
                        | None => doc_updatedAt d
                        | Some m => Z.max (doc_updatedAt d) m
                        end)) None (documentRows s).

(** COALESCE(SUM(size), 0): NULL sizes do not count. *)
Definition sumSizes (s : Store) : Z :=
  foldr (λ d acc, default 0 (doc_size d) + acc) 0 (documentRows s).

(** [getDocumentStats]; [now] is what [new Date()] returns.  The two
    grouped counts of the source are [documentsByType] and
    [documentsBySource] below. *)
Definition getDocumentStats (now : Timestamp) (s : Store) : DocumentStats :=
  {| totalDocuments := length (documentRows s);
     totalSize := sumSizes s;
     lastUpdated := match JS.truthyZ (maxUpdatedAt s) with
                    | Some t => t
                    | None => now
                    end |}.

(** The row of [saveSource]: [source.schedule || null] and
    [source.lastCrawled?.getTime() || null]. *)
Definition sourceRow (source : SourceConfig) : SourceConfig :=
  {| src_id := src_id source;
     src_name := src_name source;
     src_type := src_type source;
     src_url := src_url source;
     src_enabled := src_enabled source;
     src_schedule := JS.truthyStr (src_schedule source);
     src_lastCrawled := JS.truthyZ (src_lastCrawled source);
     src_filters := src_filters source |}.

(** INSERT OR REPLACE INTO sources. *)
Definition saveSource (source : SourceConfig) (s : Store) : Store :=
  {| documents := documents s;
     sources := <[src_id source := sourceRow source]> (sources s);
     source_status := source_status s;
     status_writes := status_writes s |}.

Definition getSource (id : string) (s : Store) : option SourceConfig :=
  sourceRow <$> sources s !! id.

(** ORDER BY name, in the binary collation. *)
Definition byName (a b : SourceConfig) : Prop :=
  String.leb (src_name a) (src_name b) = true.

#[global] Instance byName_dec a b : Decision (byName a b).
Proof. unfold byName. apply _. Defined.

(** SELECT * FROM sources ORDER BY name. *)
Definition getAllSources (s : Store) : list SourceConfig :=
  sourceRow <$> merge_sort byName (map_to_list (sources s)).*2.

(** The three statements of [deleteSource], in the order of the source. *)
Definition deleteDocumentsOf (id : string) (s : Store) : Store :=
  {| documents := filter (λ kv, doc_sourceId kv.2 ≠ id) (documents s);
     sources := sources s;
     source_status := source_status s;
     status_writes := status_writes s |}.

Definition deleteStatusOf (id : string) (s : Store) : Store :=
  {| documents := documents s;
     sources := sources s;
     source_status := delete id (source_status s);
     status_writes := status_writes s |}.

Definition deleteSourceRow (id : string) (s : Store) : bool * Store :=
  (bool_decide (is_Some (sources s !! id)),
   {| documents := documents s;
      sources := delete id (sources s);
      source_status := source_status s;
      status_writes := status_writes s |}).

Definition deleteSource (id : string) (s : Store) : bool * Store :=
  deleteSourceRow id (deleteStatusOf id (deleteDocumentsOf id s)).

(** The row of [updateSourceStatus]. *)
Definition statusRow (status : SourceStatus) : SourceStatus :=
  {| st_sourceId := st_sourceId status;
     st_status := st_status status;
     st_lastRun := JS.truthyZ (st_lastRun status);
     st_lastError := JS.truthyStr (st_lastError status);
     st_documentsFound := st_documentsFound status;
     st_documentsProcessed := st_documentsProcessed status;
     st_documentsSkipped := st_documentsSkipped status;
     st_duration := JS.truthyZ (st_duration status) |}.

(** INSERT OR REPLACE INTO source_status. *)
Definition updateSourceStatus (status : SourceStatus) (s : Store) : Store :=
  {| documents := documents s;
     sources := sources s;
     source_status := <[st_sourceId status := statusRow status]> (source_status s);
     status_writes := statusRow status :: status_writes s |}.

Definition getSourceStatus (sourceId : string) (s : Store) : option SourceStatus :=
  statusRow <$> source_status s !! sourceId.

(** The grouped counts of [getDocumentStats]: the object that
    [Object.fromEntries] builds from the rows of a GROUP BY query has an
    entry for a key exactly when a document carries the key. *)
Definition countBy (key : Document → string) (rows : list Document) : gmap string nat :=
  foldr (λ d acc, <[key d := S (default 0%nat (acc !! key d))]> acc) ∅ rows.

(** The [type] column of a document row. *)
Definition typeName (t : DocumentType) : string :=
  match t with
  | markdown => "markdown"
  | html => "html"
  | pdf => "pdf"
  | text => "text"
  | json => "json"
  end.

Definition documentsByType (s : Store) : gmap string nat :=
  countBy (λ d, typeName (doc_type d)) (documentRows s).

Definition documentsBySource (s : Store) : gmap string nat :=
  countBy doc_sourceId (documentRows s).

End StorageService.

(** ** The host: file system, clock and libraries *)

Record FsStats := mkFsStats {
  stat_isDirectory : bool;
  stat_size : Z;
  stat_mtime : Timestamp;
  stat_birthtime : Timestamp
}.

Record Dirent := mkDirent {
  dirent_name : string;
  dirent_isDirectory : bool;
  dirent_isFile : bool
}.

(** What [fs.stat], [fs.readdir] (with file types) and [fs.readFile] answer
    for a path; a file is its sequence of bytes. *)
Record FileSystem := mkFileSystem {
  fs_stat : string -> Result FsStats;
  fs_readdir : string -> Result (list Dirent);
  fs_readFile : string -> Result string
}.

(** The result of [gray-matter]: the front-matter fields the parser reads,
    the whole front matter, and the body. *)
Record FrontMatter := mkFrontMatter {
  fm_title : string;
  fm_tags : option (list string);
  fm_keywords : option (list string);
  fm_data : JValue;
  fm_content : string
}.

(** What the parser asks of a [cheerio] document once the script and style
    elements are removed. *)
Record HtmlDoc := mkHtmlDoc {
  h_title : string;
  h_h1 : string;
  h_body : string;
  h_text : string;
  h_meta : list (string * string);
  h_headings : list string;
  h_links : list string
}.

(** The result of [pdf-parse]. *)
Record PdfData := mkPdfData {
  pdf_infoTitle : string;
  pdf_text : string;
  pdf_info : JValue;
  pdf_numpages : Z;
  pdf_version : JValue
}.

Record ParseResult := mkParseResult {
  pr_title : string;
  pr_content : string;
  pr_metadata : option Metadata;
  pr_tags : option (list string)
}.

(** One match of the fuzzy matcher: the matched document and its distance
    ([score], 0 is a perfect match). *)
Record FuseResult := mkFuseResult {
  item : Document;
  score : option Q
}.

Class Runtime := mkRuntime {
  (** [createHash('sha256').update(s).digest('hex')] *)
  sha256_hex : string -> string;
  (** [createHash('md5').update(buffer).digest('hex')] *)
  md5_hex : string -> string;
  (** the successive readings of the wall clock *)
  wall_clock : nat -> Timestamp;
  (** [matter(content)] *)
  gray_matter : string -> Result FrontMatter;
  (** [md.render(markdown)] *)
  markdown_render : string -> string;
  (** the capture of [/^#\s+(.+)$/m] in the markdown body *)
  first_heading : string -> option string;
  (** [cheerio.load(content)] and the selections read from it *)
  cheerio_load : string -> Result HtmlDoc;
  (** [pdf(buffer)] of pdf-parse, its dynamic import included *)
  pdf_parse : string -> Result PdfData;
  (** [JSON.parse(content)] *)
  JSON_parse : string -> Result JValue;
  (** [new RegExp(source, 'i').test(subject)] for the sources that the
      fragment of [Glob] below does not cover *)
  RegExp_test_other : string -> string -> Result bool;
  (** the matches of a [Fuse] index over the given documents for a
      threshold and a query, best first, before any limit *)
  fuse_search : list Document -> Q -> string -> list FuseResult
}.

(** ** Paths ([path], POSIX flavour) *)

Module Path.

(** [path.join(dir, name)] for a normalized [dir] and a single segment. *)
Definition join (dir name : string) : string := dir +:+ "/" +:+ name.

(** [path.relative(root, full)] for a normalized [root] that [full] lies
    under. *)
Definition relative (root full : string) : string :=
  if String.prefix (root +:+ "/") full
  then String.substring (String.length root + 1)
         (String.length full - (String.length root + 1)) full
  else full.

Fixpoint lastSegment (cur : string) (p : string) : string :=
  match p with
  | EmptyString => cur
  | String c p' =>
      if Ascii.eqb c "/"%char then lastSegment EmptyString p'
      else lastSegment (cur +:+ String c EmptyString) p'
  end.

(** [path.basename(p)]. *)
Definition basename (p : string) : string := lastSegment EmptyString p.

Fixpoint fromLastDot (ext : option string) (s : string) : option string :=
  match s with
  | EmptyString => ext
  | String c s' =>
      if Ascii.eqb c "."%char then fromLastDot (Some "."%string) s'
      else fromLastDot ((λ e, e +:+ String c EmptyString) <$> ext) s'
  end.

(** [path.extname(p)]: from the last dot of the base name; a leading dot
    does not start an extension. *)
Definition extname (p : string) : string :=
  let base := basename p in
  if String.eqb base ".." then EmptyString
  else match base with
       | String "." rest => default EmptyString (fromLastDot None rest)
       | _ => default EmptyString (fromLastDot None base)
       end.

(** [path.basename(p, ext)]. *)
Definition basenameExt (p ext : string) : string :=
  let base := basename p in
  let n := (String.length base - String.length ext)%nat in
  if negb (String.eqb base ext)
     && String.eqb (String.substring n (String.length ext) base) ext
     && (String.length ext <=? String.length base)%nat
  then String.substring 0 n base
  else base.

Fixpoint dirnameAux (acc cur : string) (seen : bool) (p : string) : string :=
  match p with
  | EmptyString => if seen then acc else "."
  | String c p' =>
      if Ascii.eqb c "/"%char
      then dirnameAux (if seen then acc +:+ "/" +:+ cur else cur) EmptyString true p'
      else dirnameAux acc (cur +:+ String c EmptyString) seen p'
  end.

(** [path.dirname(p)] for a normalized path. *)
Definition dirname (p : string) : string :=
  match dirnameAux EmptyString EmptyString false p with
  | EmptyString => "/"
  | d => d
  end.

End Path.

(** ** The parser service ([services/parser.ts]) *)

Module ParserService.
Section WithRuntime.
Context {rt : Runtime}.

(** [s.replace(/<[^>]*>/g, ' ')]: [pending] holds the characters read
    since an opening bracket that has not met its closing bracket yet. *)
Fixpoint stripTags (pending : option string) (s : string) : string :=
  match s with
  | EmptyString => default EmptyString pending
  | String c s' =>
      match pending with
      | Some buf =>
          if Ascii.eqb c ">"%char then String " "%char (stripTags None s')
          else stripTags (Some (buf +:+ String c EmptyString)) s'
      | None =>
          if Ascii.eqb c "<"%char then stripTags (Some "<"%string) s'
          else String c (stripTags None s')
      end
  end.

Definition collapse (s : string) : string :=
  JS.trim (JS.collapseSpaces false s).

Definition parseMarkdown (content : string) : Result ParseResult :=
  match gray_matter content with
  | Throw msg => Throw msg
  | Ok parsed =>
      let markdownContent := fm_content parsed in
      let title :=
        match fm_title parsed with
        | EmptyString =>
            match first_heading markdownContent with
            | Some h => JS.trim h
            | None => EmptyString
            end
        | t => t
        end in
      let plainText := collapse (stripTags None (markdown_render markdownContent)) in
      Ok {| pr_title := title;
            pr_content := plainText;
            pr_metadata := Some [("frontmatter"%string, fm_data parsed);
                                 ("originalMarkdown"%string, JStr markdownContent);
                                 ("wordCount"%string,
                                  JNum (Z.of_nat (JS.countFields false plainText)))];
            pr_tags := match fm_tags parsed with
                       | Some t => Some t
                       | None => fm_keywords parsed
                       end |}
  end.

Fixpoint splitOn (sep : ascii) (cur : string) (s : string) : list string :=
  match s with
  | EmptyString => [cur]
  | String c s' =>
      if Ascii.eqb c sep then cur :: splitOn sep EmptyString s'
      else splitOn sep (cur +:+ String c EmptyString) s'
  end.

Definition parseHTML (content : string) : Result ParseResult :=
  match cheerio_load content with
  | Throw msg => Throw msg
  | Ok page =>
      let title := JS.orStr (h_title page) (h_h1 page) in
      let bodyText := JS.orStr (h_body page) (h_text page) in
      let cleanText := collapse bodyText in
      let metadata :=
        foldl (λ o kv, match kv.1, kv.2 with
                       | EmptyString, _ | _, EmptyString => o
                       | name, value => objSet name (JStr value) o
                       end) [] (h_meta page) in
      let tags :=
        match objGet "keywords" metadata with
        | Some (JStr (String c k)) =>
            Some (JS.trim <$> splitOn ","%char EmptyString (String c k))
        | _ => None
        end in
      Ok {| pr_title := JS.trim title;
            pr_content := cleanText;
            pr_metadata :=
              Some (objSet "links" (JArr (JStr <$> h_links page))
                      (objSet "headings" (JArr (JStr ∘ JS.trim <$> h_headings page))
                         metadata));
            pr_tags := tags |}
  end.

(** [parsePDF] has its own handler: a failure of the decoder gives the
    placeholder result and is not thrown further. *)
Definition parsePDF (buffer : string) : ParseResult :=
  match pdf_parse buffer with
  | Ok data =>
      let title :=
        match pdf_infoTitle data, pdf_text data with
        | EmptyString, String c t =>
            let firstLine := hd EmptyString (JS.splitLines EmptyString (String c t)) in
            if (String.length firstLine <? 100)%nat then JS.trim firstLine
            else EmptyString
        | t, _ => t
        end in
      {| pr_title := title;
         pr_content := collapse (pdf_text data);
         pr_metadata := Some [("info"%string, pdf_info data);
                              ("numpages"%string, JNum (pdf_numpages data));
                              ("version"%string, pdf_version data)];
         pr_tags := None |}
  | Throw msg =>
      {| pr_title := "PDF Document";
         pr_content := "[PDF file - " +:+ pretty (String.length buffer) +:+ " bytes]";
         pr_metadata := Some [("size"%string, JNum (Z.of_nat (String.length buffer)));
                              ("type"%string, JStr "pdf");
                              ("parseError"%string, JStr msg)];
         pr_tags := None |}
  end.

Definition parseText (content : string) : ParseResult :=
  let lines := JS.splitLines EmptyString content in
  let title := JS.trim (hd EmptyString lines) in
  let cleanContent := collapse content in
  {| pr_title := if (String.length title <? 100)%nat then title else EmptyString;
     pr_content := cleanContent;
     pr_metadata := Some [("lineCount"%string, JNum (Z.of_nat (length lines)));
                          ("wordCount"%string,
                           JNum (Z.of_nat (JS.countFields false cleanContent)))];
     pr_tags := None |}.

(** Truthiness of a JSON value. *)
Definition truthy (v : JValue) : bool :=
  match v with
  | JNull | JBool false | JNum 0 | JStr EmptyString => false
  | _ => true
  end.

(** [String(v)]. *)
Fixpoint toString (v : JValue) : string :=
  match v with
  | JNull => "null"
  | JBool true => "true"
  | JBool false => "false"
  | JNum n => pretty n
  | JStr s => s
  | JArr items =>
      JS.join "," ((fix each (l : list JValue) : list string :=
                      match l with
                      | [] => []
                      | JNull :: l' => EmptyString :: each l'
                      | x :: l' => toString x :: each l'
                      end) items)
  | JObj _ => "[object Object]"
  end.

Fixpoint jsonToSearchableText (obj : JValue) : string :=
  match obj with
  | JNull => EmptyString
  | JBool _ | JNum _ | JStr _ => toString obj
  | JArr items =>
      JS.join " " ((fix each (l : list JValue) : list string :=
                      match l with
                      | [] => []
                      | x :: l' => jsonToSearchableText x :: each l'
                      end) items)
  | JObj fields =>
      JS.join " " ((fix each (l : list (string * JValue)) : list string :=
                      match l with
                      | [] => []
                      | (key, value) :: l' =>
                          (JS.replaceAllChar "-"%char " "
                             (JS.replaceAllChar "_"%char " " key)
                           +:+ ": " +:+ jsonToSearchableText value) :: each l'
                      end) fields)
  end.

(** [data.title || data.name || data.id || 'JSON Document']; reading a
    property of [null] throws. *)
Definition jsonTitle (data : JValue) : Result JValue :=
  match data with
  | JNull => Throw "Cannot read properties of null (reading 'title')"
  | JObj fields =>
      let field k := default JNull (objGet k fields) in
      Ok (if truthy (field "title"%string) then field "title"%string
          else if truthy (field "name"%string) then field "name"%string
          else if truthy (field "id"%string) then field "id"%string
          else JStr "JSON Document")
  | _ => Ok (JStr "JSON Document")
  end.

(** [Object.keys(data)]. *)
Definition objectKeys (data : JValue) : list string :=
  match data with
  | JObj fields => fields.*1
  | JArr items => pretty <$> seq 0 (length items)
  | JStr s => pretty <$> seq 0 (String.length s)
  | _ => []
  end.

(** [parseJSON]: any failure of the structured reading falls back to
    [parseText]. *)
Definition parseJSON (content : string) : ParseResult :=
  match JSON_parse content with
  | Throw _ => parseText content
  | Ok data =>
      match jsonTitle data with
      | Throw _ => parseText content
      | Ok title =>
          {| pr_title := toString title;
             pr_content := jsonToSearchableText data;
             pr_metadata := Some [("originalData"%string, data);
                                  ("type"%string, JStr "json");
                                  ("keys"%string, JArr (JStr <$> objectKeys data))];
             pr_tags := None |}
      end
  end.

Definition supportedExtensions : list string :=
  [".md"; ".markdown"; ".html"; ".htm"; ".pdf"; ".txt"; ".json"]%string.

Definition canParse (filePath : string) : bool :=
  bool_decide (JS.toLowerCase (Path.extname filePath) ∈ supportedExtensions).

(** The [switch] on the extension. *)
Definition parseByExtension (ext buffer : string) : Result (ParseResult * DocumentType) :=
  if bool_decide (ext = ".md" ∨ ext = ".markdown")%string then
    match parseMarkdown buffer with
    | Ok r => Ok (r, markdown)
    | Throw msg => Throw msg
    end
  else if bool_decide (ext = ".html" ∨ ext = ".htm")%string then
    match parseHTML buffer with
    | Ok r => Ok (r, html)
    | Throw msg => Throw msg
    end
  else if bool_decide (ext = ".pdf")%string then Ok (parsePDF buffer, pdf)
  else if bool_decide (ext = ".txt")%string then Ok (parseText buffer, text)
  else if bool_decide (ext = ".json")%string then Ok (parseJSON buffer, json)
  else Ok (parseText buffer, text).

(** The body of the [try] block of [parseFile]; [tick] counts the
    readings of the clock made so far. *)
Definition parseFileBody (fs : FileSystem) (filePath sourceId : string) (tick : nat)
  : Result Document :=
  match fs_stat fs filePath with
  | Throw msg => Throw msg
  | Ok stats =>
      let ext := JS.toLowerCase (Path.extname filePath) in
      match fs_readFile fs filePath with
      | Throw msg => Throw msg
      | Ok buffer =>
          let checksum := md5_hex buffer in
          match parseByExtension ext buffer with
          | Throw msg => Throw msg
          | Ok (parseResult, documentType) =>
              let now := wall_clock tick in
              let id := sha256_hex (sourceId +:+ ":" +:+ filePath) in
              Ok {| doc_id := id;
                    doc_title := JS.orStr (pr_title parseResult)
                                   (Path.basenameExt filePath ext);
                    doc_content := pr_content parseResult;
                    doc_type := documentType;
                    doc_sourceId := sourceId;
                    doc_sourcePath := filePath;
                    doc_metadata :=
                      Some (objSet "directory" (JStr (Path.dirname filePath))
                              (objSet "extension" (JStr ext)
                                 (objSet "fileName" (JStr (Path.basename filePath))
                                    (default [] (pr_metadata parseResult)))));
                    doc_tags := pr_tags parseResult;
                    doc_createdAt := stat_birthtime stats;
                    doc_updatedAt := if now <? stat_mtime stats then now
                                     else stat_mtime stats;
                    doc_size := Some (stat_size stats);
                    doc_checksum := Some checksum |}
          end
      end
  end.

(** [parseFile]: the handler turns every exception of the body into
    [null].  The clock is read once, and only when the body gets as far
    as building the document. *)
Definition parseFile (fs : FileSystem) (filePath sourceId : string) (tick : nat)
  : option Document * nat :=
  match parseFileBody fs filePath sourceId tick with
  | Ok doc => (Some doc, S tick)
  | Throw _ => (None, tick)
  end.

End WithRuntime.
End ParserService.

(** ** Glob patterns as regular expressions ([CrawlerService.matchGlob]) *)

Module Glob.

(** The regular expressions that the translation of a glob pattern
    produces when the pattern carries no operator of its own: a sequence
    of atoms, each one possibly under a star. *)
Inductive Atom :=
| AChar (c : ascii)
| AAny.

Inductive Item :=
| One (a : Atom)
| Star (a : Atom).

(** The characters that are syntax in a regular expression source. *)
Definition isMeta (c : ascii) : bool :=
  bool_decide (c ∈ ["\"; "^"; "$"; "."; "*"; "+"; "?"; "("; ")"; "["; "]"; "{"; "}"; "|"]%char).

(** Reading a regular expression source of the fragment: an escaped dot,
    a dot, or an ordinary character, followed or not by one star.  Any
    other syntax is outside the fragment. *)
Fixpoint compile (s : string) : option (list Item) :=
  match s with
  | EmptyString => Some []
  | String c s1 =>
      if Ascii.eqb c "\"%char then
        match s1 with
        | String d s2 =>
            if Ascii.eqb d "."%char then
              match s2 with
              | String e s3 =>
                  if Ascii.eqb e "*"%char
                  then cons (Star (AChar "."%char)) <$> compile s3
                  else cons (One (AChar "."%char)) <$> compile s2
              | EmptyString => Some [One (AChar "."%char)]
              end
            else None
        | EmptyString => None
        end
      else
        let atom := if Ascii.eqb c "."%char then Some AAny
                    else if isMeta c then None else Some (AChar c) in
        match atom with
        | None => None
        | Some a =>
            match s1 with
            | String e s2 =>
                if Ascii.eqb e "*"%char
                then cons (Star a) <$> compile s2
                else cons (One a) <$> compile s1
            | EmptyString => Some [One a]
            end
        end
  end.

(** The line terminators, which the dot of a regular expression does not
    match (no [s] flag). *)
Definition isLineTerminator (c : ascii) : bool :=
  Ascii.eqb c "010"%char || Ascii.eqb c "013"%char.

(** One character against one atom, under the [i] flag. *)
Definition atomMatches (a : Atom) (c : ascii) : bool :=
  match a with
  | AChar p => Ascii.eqb (JS.upperChar p) (JS.upperChar c)
  | AAny => negb (isLineTerminator c)
  end.

(** Anchored matching ([^...$]) of a sequence of items. *)
Fixpoint matchItems (r : list Item) (s : list ascii) : bool :=
  match r with
  | [] => match s with [] => true | _ => false end
  | One a :: r' =>
      match s with
      | c :: s' => atomMatches a c && matchItems r' s'
      | [] => false
      end
  | Star a :: r' =>
      (fix star (s : list ascii) : bool :=
         matchItems r' s ||
         match s with
         | c :: s' => atomMatches a c && star s'
         | [] => false
         end) s
  end.

(** The three replacements of [matchGlob]. *)
Definition regexPattern (pattern : string) : string :=
  JS.replaceAllChar "?"%char "."
    (JS.replaceAllChar "*"%char ".*"
       (JS.replaceAllChar "."%char "\." pattern)).





End Glob.

(** ** The crawler service ([services/crawler.ts]) *)

Record CrawlResult := mkCrawlResult {
  documentsFound : nat;
  documentsProcessed : nat;
  documentsSkipped : nat;
  errors : list string
}.

(** The state a run threads through: the store, the number of clock
    readings made, and the result object being filled in.  [cs_extracted]
    is a ghost field: the paths handed to [parseFile], most recent first. *)
Record CrawlState := mkCrawlState {
  cs_store : Store;
  cs_tick : nat;
  cs_result : CrawlResult;
  cs_extracted : list string
}.

Module CrawlerService.
Section WithRuntime.
Context {rt : Runtime}.

Definition matchGlob (path pattern : string) : Result bool :=
  let regexPattern := Glob.regexPattern pattern in
  match Glob.compile regexPattern with
  | Some items => Ok (Glob.matchItems items (list_ascii_of_string path))
  | None => RegExp_test_other ("^" +:+ regexPattern +:+ "$") path
  end.

(** [patterns.some(pattern => this.matchGlob(path, pattern))]: stops at
    the first match, and at the first pattern whose test throws. *)
Fixpoint someGlob (path : string) (patterns : list string) : Result bool :=
  match patterns with
  | [] => Ok false
  | pattern :: rest =>
      match matchGlob path pattern with
      | Throw msg => Throw msg
      | Ok true => Ok true
      | Ok false => someGlob path rest
      end
  end.

Definition shouldProcessPath (relativePath : string) (filters : option Filters)
  : Result bool :=
  match filters with
  | None => Ok true
  | Some f =>
      let excludeCheck :=
        match exclude f with
        | Some (p :: ps) =>
            match someGlob relativePath (p :: ps) with
            | Throw msg => Throw msg
            | Ok excluded => Ok (negb excluded)
            end
        | _ => Ok true
        end in
      match include f with
      | Some (p :: ps) =>
          match someGlob relativePath (p :: ps) with
          | Throw msg => Throw msg
          | Ok false => Ok false
          | Ok true => excludeCheck
          end
      | _ => excludeCheck
      end
  end.

(** [source.url.replace('file://', '')]. *)
Definition rootPath (source : SourceConfig) : string :=
  JS.replaceFirst "file://" EmptyString (src_url source).

(** The identifier computed for the skip check. *)
Definition docId (source : SourceConfig) (fullPath : string) : string :=
  sha256_hex (src_id source +:+ ":" +:+ fullPath).

(** Updates of the result object. *)
Definition onResult (f : CrawlResult -> CrawlResult) (st : CrawlState) : CrawlState :=
  {| cs_store := cs_store st;
     cs_tick := cs_tick st;
     cs_result := f (cs_result st);
     cs_extracted := cs_extracted st |}.

Definition incFound (r : CrawlResult) : CrawlResult :=
  {| documentsFound := S (documentsFound r);
     documentsProcessed := documentsProcessed r;
     documentsSkipped := documentsSkipped r;
     errors := errors r |}.

Definition incProcessed (r : CrawlResult) : CrawlResult :=
  {| documentsFound := documentsFound r;
     documentsProcessed := S (documentsProcessed r);
     documentsSkipped := documentsSkipped r;
     errors := errors r |}.

Definition incSkipped (r : CrawlResult) : CrawlResult :=
  {| documentsFound := documentsFound r;
     documentsProcessed := documentsProcessed r;
     documentsSkipped := S (documentsSkipped r);
     errors := errors r |}.

Definition pushError (msg : string) (r : CrawlResult) : CrawlResult :=
  {| documentsFound := documentsFound r;
     documentsProcessed := documentsProcessed r;
     documentsSkipped := documentsSkipped r;
     errors := errors r ++ [msg] |}.

(** Lines 171-178: parse and save. *)
Definition parseAndSave (fs : FileSystem) (source : SourceConfig) (fullPath : string)
    (st : CrawlState) : CrawlState :=
  let '(document, tick') :=
    ParserService.parseFile fs fullPath (src_id source) (cs_tick st) in
  match document with
  | Some doc =>
      {| cs_store := StorageService.saveDocument doc (cs_store st);
         cs_tick := tick';
         cs_result := incProcessed (cs_result st);
         cs_extracted := fullPath :: cs_extracted st |}
  | None =>
      {| cs_store := cs_store st;
         cs_tick := tick';
         cs_result := incSkipped (cs_result st);
         cs_extracted := fullPath :: cs_extracted st |}
  end.

(** Lines 143-184: one file entry that passed the filters. *)
Definition crawlFile (fs : FileSystem) (source : SourceConfig) (maxSize : Z)
    (fullPath : string) (st : CrawlState) : CrawlState :=
  match fs_stat fs fullPath with
  | Throw msg =>
      onResult (λ r, incSkipped
                       (pushError ("Error processing file " +:+ fullPath +:+ ": " +:+ msg) r))
               st
  | Ok stats =>
      if maxSize <? stat_size stats then onResult incSkipped st
      else if negb (ParserService.canParse fullPath) then onResult incSkipped st
      else
        let st := onResult incFound st in
        match StorageService.getDocument (docId source fullPath) (cs_store st) with
        | Some existingDoc =>
            if stat_mtime stats <=? doc_updatedAt existingDoc
            then onResult incSkipped st
            else parseAndSave fs source fullPath st
        | None => parseAndSave fs source fullPath st
        end
  end.

(** The [for] loop of [crawlDirectory]; [descend] is the recursive call
    on a sub-directory.  A filter test that throws leaves the loop
    through the handler of the directory. *)
Fixpoint crawlEntries (fs : FileSystem) (source : SourceConfig) (maxSize : Z)
    (descend : string -> CrawlState -> CrawlState)
    (dirPath : string) (entries : list Dirent) (st : CrawlState) : CrawlState :=
  match entries with
  | [] => st
  | entry :: rest =>
      let fullPath := Path.join dirPath (dirent_name entry) in
      let relativePath := Path.relative (rootPath source) fullPath in
      match shouldProcessPath relativePath (src_filters source) with
      | Throw msg =>
          onResult (pushError ("Error reading directory " +:+ dirPath +:+ ": " +:+ msg)) st
      | Ok false =>
          crawlEntries fs source maxSize descend dirPath rest (onResult incSkipped st)
      | Ok true =>
          crawlEntries fs source maxSize descend dirPath rest
            (if dirent_isDirectory entry then descend fullPath st
             else if dirent_isFile entry then crawlFile fs source maxSize fullPath st
             else st)
      end
  end.

(** [crawlDirectory]; [remaining] is [maxDepth - currentDepth], so that
    the test [currentDepth >= maxDepth] is [remaining = 0] and the
    recursive call at [currentDepth + 1] is the one at [remaining - 1]. *)
Fixpoint crawlDirectory (fs : FileSystem) (source : SourceConfig) (maxSize : Z)
    (remaining : nat) (dirPath : string) (st : CrawlState) : CrawlState :=
  match remaining with
  | O => st
  | S remaining' =>
      match fs_readdir fs dirPath with
      | Throw msg =>
          onResult (pushError ("Error reading directory " +:+ dirPath +:+ ": " +:+ msg)) st
      | Ok entries =>
          crawlEntries fs source maxSize
            (crawlDirectory fs source maxSize remaining') dirPath entries st
      end
  end.

Definition effectiveMaxDepth (source : SourceConfig) : Z :=
  default 10 (JS.truthyZ (src_filters source ≫= maxDepth)).

Definition effectiveMaxSize (source : SourceConfig) : Z :=
  default (10 * 1024 * 1024) (JS.truthyZ (src_filters source ≫= maxSize)).

(** The check of the root path at the head of [crawlLocalFiles]: both
    failures are rethrown with the same message. *)
Definition rootAccessible (fs : FileSystem) (source : SourceConfig) : bool :=
  match fs_stat fs (rootPath source) with
  | Ok stats => stat_isDirectory stats
  | Throw _ => false
  end.

Definition crawlLocalFiles (fs : FileSystem) (source : SourceConfig) (st : CrawlState)
  : Result CrawlState :=
  if rootAccessible fs source then
    Ok (crawlDirectory fs source (effectiveMaxSize source)
          (Z.to_nat (effectiveMaxDepth source - 0)) (rootPath source) st)
  else Throw ("Cannot access path: " +:+ rootPath source).

(** The [switch] of [crawlSource]. *)
Definition crawlByType (fs : FileSystem) (source : SourceConfig) (st : CrawlState)
  : Result CrawlState :=
  match src_type source with
  | local => crawlLocalFiles fs source st
  | git => Throw "Git sources not yet implemented"
  | web => Throw "Web sources not yet implemented"
  | api => Throw "API sources not yet implemented"
  | otherType name => Throw ("Unknown source type: " +:+ name)
  end.

Definition emptyResult : CrawlResult :=
  {| documentsFound := 0; documentsProcessed := 0; documentsSkipped := 0; errors := [] |}.

Definition withLastCrawled (t : Timestamp) (source : SourceConfig) : SourceConfig :=
  {| src_id := src_id source;
     src_name := src_name source;
     src_type := src_type source;
     src_url := src_url source;
     src_enabled := src_enabled source;
     src_schedule := src_schedule source;
     src_lastCrawled := Some t;
     src_filters := src_filters source |}.

(** [crawlSource], run on a store at clock reading [tick]. *)
Definition crawlSource (fs : FileSystem) (source : SourceConfig) (store : Store) (tick : nat)
  : CrawlState :=
  let startTime := wall_clock tick in
  let store1 :=
    StorageService.updateSourceStatus
      {| st_sourceId := src_id source;
         st_status := crawling;
         st_lastRun := Some (wall_clock (tick + 1));
         st_lastError := None;
         st_documentsFound := 0;
         st_documentsProcessed := 0;
         st_documentsSkipped := 0;
         st_duration := None |} store in
  let st1 := {| cs_store := store1; cs_tick := (tick + 2)%nat;
                cs_result := emptyResult; cs_extracted := [] |} in
  match crawlByType fs source st1 with
  | Ok st2 =>
      let result := cs_result st2 in
      let t := cs_tick st2 in
      let store3 :=
        StorageService.updateSourceStatus
          {| st_sourceId := src_id source;
             st_status := success;
             st_lastRun := Some (wall_clock t);
             st_lastError := None;
             st_documentsFound := documentsFound result;
             st_documentsProcessed := documentsProcessed result;
             st_documentsSkipped := documentsSkipped result;
             st_duration := Some (wall_clock (t + 1) - startTime) |} (cs_store st2) in
      {| cs_store := StorageService.saveSource
                       (withLastCrawled (wall_clock (t + 2)) source) store3;
         cs_tick := (t + 3)%nat;
         cs_result := result;
         cs_extracted := cs_extracted st2 |}
  | Throw errorMessage =>
      let result := pushError errorMessage (cs_result st1) in
      let t := cs_tick st1 in
      {| cs_store :=
           StorageService.updateSourceStatus
             {| st_sourceId := src_id source;
                st_status := error;
                st_lastRun := Some (wall_clock t);
                st_lastError := Some errorMessage;
                st_documentsFound := documentsFound result;
                st_documentsProcessed := documentsProcessed result;
                st_documentsSkipped := documentsSkipped result;
                st_duration := Some (wall_clock (t + 1) - startTime) |} (cs_store st1);
         cs_tick := (t + 2)%nat;
         cs_result := result;
         cs_extracted := cs_extracted st1 |}
  end.

(** [results.set(id, result)] on a [Map]: a key that is present keeps its
    place. *)
Fixpoint mapSet {V : Type} (k : string) (v : V) (m : list (string * V))
  : list (string * V) :=
  match m with
  | [] => [(k, v)]
  | (k', v') :: rest =>
      if String.eqb k k' then (k, v) :: rest else (k', v') :: mapSet k v rest
  end.

(** [crawlAllEnabledSources]: the sources are read once, and each enabled
    one is crawled in turn on the store the one before left.  [crawlSource]
    does not throw here, so the handler of the loop is never entered. *)
Definition crawlAllEnabledSources (fs : FileSystem) (store : Store) (tick : nat)
  : list (string * CrawlResult) * Store * nat :=
  let enabledSources := List.filter src_enabled (StorageService.getAllSources store) in
  foldl (λ acc source,
           let st := crawlSource fs source acc.1.2 acc.2 in
           (mapSet (src_id source) (cs_result st) acc.1.1, cs_store st, cs_tick st))
        ([], store, tick) enabledSources.

End WithRuntime.
End CrawlerService.

(** ** The search service ([services/search.ts]) *)

Record SearchOptions := mkSearchOptions {
  opt_limit : option Z;
  opt_threshold : option Q;
  opt_sourceIds : option (list string);
  opt_types : option (list DocumentType);
  opt_tags : option (list string)
}.

(** A search result.  The highlights of the source are computed from the
    match alone and decide nothing else; they are left out. *)
Record DocumentSearchResult := mkDocumentSearchResult {
  document : Document;
  sr_score : Q
}.

(** The fields of the service: whether the matcher has been built, the
    documents it was built on, and the time of the build. *)
Record SearchIndex := mkSearchIndex {
  fuse_built : bool;
  idx_documents : list Document;
  lastIndexUpdate : Timestamp
}.

Definition newSearchIndex : SearchIndex :=
  {| fuse_built := false; idx_documents := []; lastIndexUpdate := 0 |}.

Module SearchService.
Section WithRuntime.
Context {rt : Runtime}.

Definition rebuildIndex (store : Store) (tick : nat) : SearchIndex * nat :=
  ({| fuse_built := true;
      idx_documents :=
        concat ((λ source, StorageService.getDocumentsBySource (src_id source) store)
                  <$> StorageService.getAllSources store);
      lastIndexUpdate := wall_clock tick |},
   S tick).

(** [Fuse.search(query, { limit })]: the limit is applied when it is
    above -1. *)
Definition fuseSearch (docs : list Document) (threshold : Q) (query : string) (limit : Z)
  : list FuseResult :=
  let results := fuse_search docs threshold query in
  if -1 <? limit then take (Z.to_nat limit) results else results.

(** An optional restriction is in force when it is given and not empty. *)
Definition given {A : Type} (o : option (list A)) : option (list A) :=
  match o with
  | Some (x :: l) => Some (x :: l)
  | _ => None
  end.

Definition sourceIdsFilter (sourceIds : option (list string)) (r : FuseResult) : bool :=
  match given sourceIds with
  | Some ids => bool_decide (doc_sourceId (item r) ∈ ids)
  | None => true
  end.

Definition typesFilter (types : option (list DocumentType)) (r : FuseResult) : bool :=
  match given types with
  | Some ts => bool_decide (doc_type (item r) ∈ ts)
  | None => true
  end.

Definition tagsFilter (tags : option (list string)) (r : FuseResult) : bool :=
  match given tags with
  | Some wanted =>
      match doc_tags (item r) with
      | Some docTags => existsb (λ tag, bool_decide (tag ∈ wanted)) docTags
      | None => false
      end
  | None => true
  end.

Definition toSearchResult (r : FuseResult) : DocumentSearchResult :=
  {| document := item r; sr_score := (1 - default 0 (score r))%Q |}.

Definition defaultThreshold : Q := (3 # 10)%Q.

(** The time [getDocumentStats] answers with, and the clock after it:
    the clock is read only when the table gives no usable maximum. *)
Definition statsLastUpdated (store : Store) (tick : nat) : Timestamp * nat :=
  (lastUpdated (StorageService.getDocumentStats (wall_clock tick) store),
   match JS.truthyZ (StorageService.maxUpdatedAt store) with
   | Some _ => tick
   | None => S tick
   end).

(** The staleness check at the head of [search]. *)
Definition refresh (idx : SearchIndex) (store : Store) (tick : nat) : SearchIndex * nat :=
  let '(updated, tick1) := statsLastUpdated store tick in
  if lastIndexUpdate idx <? updated then rebuildIndex store tick1 else (idx, tick1).

Definition search (query : string) (options : SearchOptions)
    (idx : SearchIndex) (store : Store) (tick : nat)
  : list DocumentSearchResult * SearchIndex * nat :=
  let '(idx1, tick1) := refresh idx store tick in
  if negb (fuse_built idx1) || String.eqb (JS.trim query) EmptyString
  then ([], idx1, tick1)
  else
    let limit := default 50 (opt_limit options) in
    let threshold := default defaultThreshold (opt_threshold options) in
    (* the instance kept by the service and the one built for another
       threshold are both over [this.documents] *)
    let fuseResults := fuseSearch (idx_documents idx1) threshold query (limit * 2) in
    let filteredResults :=
      List.filter (tagsFilter (opt_tags options))
        (List.filter (typesFilter (opt_types options))
           (List.filter (sourceIdsFilter (opt_sourceIds options)) fuseResults)) in
    (toSearchResult <$> JS.slice0 limit filteredResults, idx1, tick1).

Definition limitOnly (limit : Z) : SearchOptions :=
  {| opt_limit := Some limit; opt_threshold := None; opt_sourceIds := None;
     opt_types := None; opt_tags := None |}.

(** [[document.title, ...(document.tags || [])].join(' ')]. *)
Definition similarityQuery (doc : Document) : string :=
  JS.join " " (doc_title doc :: default [] (doc_tags doc)).

Definition getSimilarDocuments (documentId : string) (limit : Z)
    (idx : SearchIndex) (store : Store) (tick : nat)
  : list DocumentSearchResult * SearchIndex * nat :=
  match StorageService.getDocument documentId store with
  | None => ([], idx, tick)
  | Some doc =>
      let '(results, idx1, tick1) :=
        search (similarityQuery doc) (limitOnly (limit + 1)) idx store tick in
      (List.filter (λ result, negb (String.eqb (doc_id (document result)) documentId)) results,
       idx1, tick1)
  end.

(** [docs.sort((a, b) => b.updatedAt.getTime() - a.updatedAt.getTime())]:
    the sort of an array is stable, so documents with the same time keep
    their order.  [insertNewer] puts a document in front of the first one
    that is not newer. *)
Fixpoint insertNewer (x : Document) (l : list Document) : list Document :=
  match l with
  | [] => [x]
  | y :: rest =>
      if doc_updatedAt y <=? doc_updatedAt x then x :: y :: rest
      else y :: insertNewer x rest
  end.

Definition sortNewestFirst (l : list Document) : list Document :=
  foldr insertNewer [] l.

(** [searchByType]: the type is a free string. *)
Definition searchByType (type : string) (limit : Z) (store : Store) (tick : nat)
  : list Document * SearchIndex * nat :=
  let '(idx, tick1) := rebuildIndex store tick in
  (JS.slice0 limit
     (sortNewestFirst
        (List.filter (λ doc, String.eqb (StorageService.typeName (doc_type doc)) type) (idx_documents idx))),
   idx, tick1).

(** [searchBySource]: the limit is not used. *)
Definition searchBySource (sourceId : string) (limit : Z) (store : Store) : list Document :=
  StorageService.getDocumentsBySource sourceId store.

Definition sharesTag (tags : list string) (doc : Document) : bool :=
  match doc_tags doc with
  | Some docTags => existsb (λ tag, bool_decide (tag ∈ tags)) docTags
  | None => false
  end.

Definition searchByTags (tags : list string) (limit : Z) (store : Store) (tick : nat)
  : list Document * SearchIndex * nat :=
  let '(idx, tick1) := rebuildIndex store tick in
  (JS.slice0 limit (sortNewestFirst (List.filter (sharesTag tags) (idx_documents idx))),
   idx, tick1).

(** The documents [getRecentDocuments] returns.  The source sorts
    [this.documents] in place; what that leaves in the service beside the
    matcher built before the sort is not part of this definition. *)
Definition getRecentDocuments (limit : Z) (store : Store) (tick : nat)
  : list Document * nat :=
  let '(idx, tick1) := rebuildIndex store tick in
  (JS.slice0 limit (sortNewestFirst (idx_documents idx)), tick1).

End WithRuntime.
End SearchService.

(** ** The tool handlers ([core/tools.ts]) *)

(** The arguments of [update_source] after validation. *)
Record UpdateSourceArgs := mkUpdateSourceArgs {
  upd_source_id : string;
  upd_name : option string;
  upd_enabled : option bool;
  upd_filters : option Filters
}.


Module ToolsHandler.
Section WithRuntime.
Context {rt : Runtime}.

(** [{ ...a, ...b }] on two filter objects: a key of [b] wins. *)
Definition mergeFilters (a : option Filters) (b : Filters) : Filters :=
  let pick {A : Type} (f : Filters → option A) : option A :=
    match f b with
    | Some x => Some x
    | None => a ≫= f
    end in
  {| include := pick include;
     exclude := pick exclude;
     maxDepth := pick maxDepth;
     maxSize := pick maxSize |}.

(** [handleUpdateSource]: a name is taken when it is given and not empty. *)
Definition handleUpdateSource (args : UpdateSourceArgs) (store : Store)
  : Result (string * Store) :=
  match StorageService.getSource (upd_source_id args) store with
  | None => Throw ("Source not found: " +:+ upd_source_id args)
  | Some source =>
      let updatedSource :=
        {| src_id := src_id source;
           src_name := match JS.truthyStr (upd_name args) with
                       | Some name => name
                       | None => src_name source
                       end;
           src_type := src_type source;
           src_url := src_url source;
           src_enabled := default (src_enabled source) (upd_enabled args);
           src_schedule := src_schedule source;
           src_lastCrawled := src_lastCrawled source;
           src_filters := match upd_filters args with
                          | Some f => Some (mergeFilters (src_filters source) f)
                          | None => src_filters source
                          end |} in
      Ok ("Source '" +:+ src_name updatedSource +:+ "' updated successfully",
          StorageService.saveSource updatedSource store)
  end.

(** [handleDeleteSource]: the flag [success] and the message, and the store
    afterwards. *)
Definition handleDeleteSource (sourceId : string) (store : Store)
  : Result (bool * string * Store) :=
  match StorageService.getSource sourceId store with
  | None => Throw ("Source not found: " +:+ sourceId)
  | Some source =>
      let '(deleted, store') := StorageService.deleteSource sourceId store in
      Ok (deleted,
          if deleted then "Source '" +:+ src_name source +:+ "' deleted successfully"
          else "Failed to delete source",
          store')
  end.



End WithRuntime.
End ToolsHandler.

(** ** Notions used to state the properties *)

(** [t] is the greatest [updatedAt] of the documents of the store: a
    document has it and no document exceeds it. *)
Definition isMaxUpdatedAt (s : Store) (t : Timestamp) : Prop :=
  (∃ k d, documents s !! k = Some d ∧ doc_updatedAt d = t) ∧
  (∀ k d, documents s !! k = Some d → doc_updatedAt d <= t).

(** The status a caller reads for a source: [idle] when no row exists. *)
Definition currentStatus (sourceId : string) (s : Store) : StatusKind :=
  match StorageService.getSourceStatus sourceId s with
  | Some row => st_status row
  | None => idle
  end.







(** A part of a run keeps the status table, and counts every file it
    found as processed or skipped. *)
Definition accounted (a a' : CrawlState) : Prop :=
  source_status (cs_store a') = source_status (cs_store a) ∧
  status_writes (cs_store a') = status_writes (cs_store a) ∧
  sources (cs_store a') = sources (cs_store a) ∧
  (documentsFound (cs_result a') + documentsSkipped (cs_result a)
   + documentsProcessed (cs_result a)
   <= documentsFound (cs_result a) + documentsSkipped (cs_result a')
      + documentsProcessed (cs_result a'))%nat.





(** White space occurs in [s] only as single blanks: every white space
    character is a blank and no blank follows another; with [after_blank]
    the text does not start with a blank either. *)
Fixpoint singleBlanks (after_blank : bool) (s : string) : bool :=
  match s with
  | EmptyString => true
  | String c s' =>
      if JS.isSpace c
      then Ascii.eqb c " "%char && negb after_blank && singleBlanks true s'
      else singleBlanks false s'
  end.

(** A part of a run hands to the parser no more files than it finds, and
    processes no more files than it hands to the parser. *)
Definition counted (a a' : CrawlState) : Prop :=
  ∃ (new : list string) (found processed : nat),
    cs_extracted a' = new ++ cs_extracted a ∧
    documentsFound (cs_result a') = (documentsFound (cs_result a) + found)%nat ∧
    documentsProcessed (cs_result a') = (documentsProcessed (cs_result a) + processed)%nat ∧
    (processed <= length new)%nat ∧ (length new <= found)%nat.

(** What a part of a run of [source] does to the documents table: a row
    it leaves different is the row of a path it handed to the parser,
    stored under the identifier of the path and carrying the source; and
    every path handed to the parser has a supported extension and a size
    within the limit. *)
Definition ownWrites `{Runtime} (fs : FileSystem) (source : SourceConfig) (maxSize : Z)
    (a a' : CrawlState) : Prop :=
  (∃ new, cs_extracted a' = new ++ cs_extracted a ∧
          Forall (λ path, ParserService.canParse path = true ∧
                          ∃ stats, fs_stat fs path = Ok stats ∧ stat_size stats <= maxSize)
                 new) ∧
  ∀ id, documents (cs_store a') !! id = documents (cs_store a) !! id ∨
        ∃ path d, path ∈ cs_extracted a' ∧ id = CrawlerService.docId source path ∧
                  documents (cs_store a') !! id = Some d ∧
                  doc_id d = id ∧ doc_sourceId d = src_id source ∧
                  doc_sourcePath d = path.



(** ** Concrete hosts and stores used by the examples *)

Module Fixtures.

Definition lookupPath {A : Type} (table : list (string * A)) (path : string) : Result A :=
  match list_find (λ kv, kv.1 = path) table with
  | Some (_, (_, a)) => Ok a
  | None => Throw ("ENOENT: no such file or directory, " +:+ path)
  end.

Definition fileSystem (stats : list (string * FsStats))
    (dirs : list (string * list Dirent)) (files : list (string * string)) : FileSystem :=
  {| fs_stat := lookupPath stats;
     fs_readdir := lookupPath dirs;
     fs_readFile := lookupPath files |}.

Definition dirStats : FsStats :=
  {| stat_isDirectory := true; stat_size := 4096; stat_mtime := 100; stat_birthtime := 100 |}.

Definition fileStats (size mtime : Z) : FsStats :=
  {| stat_isDirectory := false; stat_size := size; stat_mtime := mtime; stat_birthtime := 50 |}.

Definition fileEntry (name : string) : Dirent :=
  {| dirent_name := name; dirent_isDirectory := false; dirent_isFile := true |}.

(** A host whose clock starts at 1000 and advances by one at each
    reading, whose hashes tag their input, whose markdown and HTML
    libraries read nothing from the text, whose PDF decoder and JSON
    parser reject every input, and whose matcher accepts every document
    at distance 0 in the order of the index. *)
Definition host : Runtime :=
  {| sha256_hex := λ s, "sha256(" +:+ s +:+ ")";
     md5_hex := λ s, "md5(" +:+ s +:+ ")";
     wall_clock := λ n, 1000 + Z.of_nat n;
     gray_matter := λ content,
       Ok {| fm_title := EmptyString; fm_tags := None; fm_keywords := None;
             fm_data := JObj []; fm_content := content |};
     markdown_render := λ s, s;
     first_heading := λ _, None;
     cheerio_load := λ content,
       Ok {| h_title := EmptyString; h_h1 := EmptyString; h_body := content;
             h_text := content; h_meta := []; h_headings := []; h_links := [] |};
     pdf_parse := λ _, Throw "Invalid PDF structure";
     JSON_parse := λ _, Throw "Unexpected token";
     RegExp_test_other := λ _ _, Throw "Invalid regular expression";
     fuse_search := λ docs _ _, (λ d, {| item := d; score := Some 0%Q |}) <$> docs |}.


Definition localSource (filters : option Filters) : SourceConfig :=
  {| src_id := "s1"; src_name := "docs"; src_type := local; src_url := "file:///docs";
     src_enabled := true; src_schedule := None; src_lastCrawled := None;
     src_filters := filters |}.

(** /docs holds one markdown file, last modified at time 500. *)
Definition oneFile : FileSystem :=
  fileSystem [("/docs"%string, dirStats); ("/docs/guide.md"%string, fileStats 20 500)]
             [("/docs"%string, [fileEntry "guide.md"])]
             [("/docs/guide.md"%string, "Setup notes"%string)].

(** /docs holds a markdown file and an image. *)
Definition withImage : FileSystem :=
  fileSystem [("/docs"%string, dirStats); ("/docs/guide.md"%string, fileStats 20 500);
              ("/docs/logo.png"%string, fileStats 64 400)]
             [("/docs"%string, [fileEntry "guide.md"; fileEntry "logo.png"])]
             [("/docs/guide.md"%string, "Setup notes"%string);
              ("/docs/logo.png"%string, "PNG"%string)].

(** /docs holds one markdown file whose modification time, 5000, is
    ahead of the clock of [host]. *)
Definition futureFile : FileSystem :=
  fileSystem [("/docs"%string, dirStats); ("/docs/guide.md"%string, fileStats 20 5000)]
             [("/docs"%string, [fileEntry "guide.md"])]
             [("/docs/guide.md"%string, "Setup notes"%string)].




Definition doc (id title sourceId : string) (updatedAt : Z) : Document :=
  {| doc_id := id; doc_title := title; doc_content := title; doc_type := markdown;
     doc_sourceId := sourceId; doc_sourcePath := "/docs/" +:+ id;
     doc_metadata := None; doc_tags := Some ["guide"%string];
     doc_createdAt := 10; doc_updatedAt := updatedAt;
     doc_size := Some 20; doc_checksum := None |}.

(** A store with source [s1] and three documents of it. *)
Definition threeDocs : Store :=
  StorageService.saveDocument (doc "c" "Readme" "s1" 300)
    (StorageService.saveDocument (doc "b" "Readme" "s1" 200)
       (StorageService.saveDocument (doc "a" "Readme" "s1" 100)
          (StorageService.updateSourceStatus
             {| st_sourceId := "s1"; st_status := success; st_lastRun := Some 900;
                st_lastError := None; st_documentsFound := 3;
                st_documentsProcessed := 3; st_documentsSkipped := 0;
                st_duration := Some 5 |}
             (StorageService.saveSource (localSource None) emptyStore)))).

(** A store that holds the source [s1] and nothing else. *)
Definition sourceOnly (filters : option Filters) : Store :=
  StorageService.saveSource (localSource filters) emptyStore.

End Fixtures.

(** * Properties *)

(** ** Storage *)

Section StorageProperties.
Import StorageService.

Lemma documentRows_lookup (s : Store) (d : Document) :
  d ∈ documentRows s ↔ ∃ k, documents s !! k = Some d.
Proof.
  unfold documentRows. rewrite list_elem_of_fmap. split.
  - intros [[k d'] [-> Hin]]. apply elem_of_map_to_list in Hin. eauto.
  - intros [k Hk]. exists (k, d). split; [done|]. by apply elem_of_map_to_list.
Qed.

Lemma filter_none {A : Type} (P : A → Prop) `{!∀ x, Decision (P x)} (l : list A) :
  (∀ x, x ∈ l → ¬ P x) → filter P l = [].
Proof.
  induction l as [|x l IH]; intros Hno; [done|].
  rewrite filter_cons_False.
  - apply IH. intros y Hy. apply Hno. by right.
  - apply Hno. by left.
Qed.

Lemma getDocumentsBySource_nil (id : string) (s : Store) :
  (∀ k d, documents s !! k = Some d → doc_sourceId d ≠ id) →
  getDocumentsBySource id s = [].
Proof.
  intros Hno. unfold getDocumentsBySource.
  rewrite filter_none; [done|].
  intros d [k Hk]%documentRows_lookup. by apply (Hno k).
Qed.

Lemma getDocumentsBySource_elem (id : string) (s : Store) (d : Document) :
  d ∈ getDocumentsBySource id s → doc_sourceId d = id.
Proof.
  unfold getDocumentsBySource. intros [row [-> Hrow]]%list_elem_of_fmap.
  rewrite merge_sort_Permutation in Hrow.
  apply list_elem_of_filter in Hrow as [Hsrc _]. done.
Qed.

Lemma foldr_max_spec (l : list Document) :
  match foldr (λ d acc, Some (match acc with
                              | None => doc_updatedAt d
                              | Some m => Z.max (doc_updatedAt d) m
                              end)) None l with
  | None => l = []
  | Some m => (∃ d, d ∈ l ∧ doc_updatedAt d = m) ∧ (∀ d, d ∈ l → doc_updatedAt d <= m)
  end.
Proof.
  induction l as [|d l IH]; [done|]. simpl.
  destruct (foldr _ None l) as [m|].
  - destruct IH as [[d' [Hd' Hm]] Hall]. split.
    + destruct (Z.max_spec (doc_updatedAt d) m) as [[_ ->]|[_ ->]].
      * exists d'. split; [by right|done].
      * exists d. split; [by left|done].
    + intros x [->|Hx]%elem_of_cons; [lia|]. specialize (Hall x Hx). lia.
  - subst l. split.
    + exists d. split; [by left|done].
    + intros x [->|Hx]%elem_of_cons; [lia|]. by apply elem_of_nil in Hx.
Qed.

Lemma maxUpdatedAt_Some (s : Store) (m : Z) :
  maxUpdatedAt s = Some m ↔ isMaxUpdatedAt s m.
Proof.
  unfold maxUpdatedAt, isMaxUpdatedAt.
  pose proof (foldr_max_spec (documentRows s)) as H.
  destruct (foldr _ None (documentRows s)) as [m'|]; split.
  - intros [= <-]. destruct H as [[d [Hd Hm]] Hall]. split.
    + apply documentRows_lookup in Hd as [k Hk]. eauto.
    + intros k d' Hk. apply Hall. apply documentRows_lookup. eauto.
  - intros [[k [d [Hk Hd]]] Hall]. destruct H as [[d' [Hd' Hm']] Hall']. f_equal.
    apply documentRows_lookup in Hd' as [k' Hk'].
    assert (d ∈ documentRows s) as Hin by (apply documentRows_lookup; eauto).
    specialize (Hall' d Hin). specialize (Hall k' d' Hk'). lia.
  - done.
  - intros [[k [d [Hk Hd]]] _].
    assert (d ∈ documentRows s) as Hin by (apply documentRows_lookup; eauto).
    rewrite H in Hin. by apply elem_of_nil in Hin.
Qed.

Lemma maxUpdatedAt_None (s : Store) :
  maxUpdatedAt s = None ↔ documents s = ∅.
Proof.
  unfold maxUpdatedAt.
  pose proof (foldr_max_spec (documentRows s)) as H.
  destruct (foldr _ None (documentRows s)) as [m'|]; split; try done.
  - intros Hempty. destruct H as [[d [Hd _]] _].
    apply documentRows_lookup in Hd as [k Hk]. rewrite Hempty in Hk.
    by rewrite lookup_empty in Hk.
  - intros _. apply map_empty. intros k.
    destruct (documents s !! k) as [d|] eqn:Hk; [|done].
    assert (d ∈ documentRows s) as Hin by (apply documentRows_lookup; eauto).
    rewrite H in Hin. by apply elem_of_nil in Hin.
Qed.

(** C5.  Deleting a source first deletes every document of the source
    and its status row, the source row being still as it was, and then
    the source row: afterwards the store holds no document with that
    source id, no status row and no source row for it, and the documents
    of the other sources are the ones it held before. *)
Theorem deleteSource_cascade (id : string) (s : Store) :
  let cascaded := deleteStatusOf id (deleteDocumentsOf id s) in
  let s' := (deleteSource id s).2 in
  (sources cascaded = sources s ∧
   getDocumentsBySource id cascaded = [] ∧
   getSourceStatus id cascaded = None ∧
   deleteSource id s = deleteSourceRow id cascaded) ∧
  (getDocumentsBySource id s' = [] ∧
   (∀ k d, documents s' !! k = Some d → doc_sourceId d ≠ id) ∧
   getSourceStatus id s' = None ∧
   getSource id s' = None) ∧
  (∀ k d, documents s !! k = Some d → doc_sourceId d ≠ id →
          documents s' !! k = Some d) ∧
  (deleteSource id s).1 = bool_decide (is_Some (sources s !! id)).
Proof.
  intros cascaded s'.
  assert (∀ k d, documents cascaded !! k = Some d → doc_sourceId d ≠ id) as Hgone.
  { intros k d Hk. simpl in Hk. by apply map_lookup_filter_Some in Hk as [_ ?]. }
  repeat split.
  - by apply getDocumentsBySource_nil.
  - unfold getSourceStatus. simpl. by rewrite lookup_delete_eq.
  - by apply getDocumentsBySource_nil.
  - done.
  - unfold getSourceStatus. simpl. by rewrite lookup_delete_eq.
  - unfold getSource. simpl. by rewrite lookup_delete_eq.
  - intros k d Hk Hne. simpl. by apply map_lookup_filter_Some.
Qed.

(** [lastUpdated] is the greatest [updatedAt] when there is one and it is
    not the epoch, and the current time on a store without documents. *)
Lemma lastUpdated_max (now : Timestamp) (s : Store) (m : Timestamp) :
  isMaxUpdatedAt s m → m ≠ 0 →
  lastUpdated (getDocumentStats now s) = m.
Proof.
  intros Hmax Hm. apply maxUpdatedAt_Some in Hmax.
  unfold getDocumentStats. simpl. rewrite Hmax. by destruct m.
Qed.

Lemma lastUpdated_empty (now : Timestamp) (s : Store) :
  documents s = ∅ → lastUpdated (getDocumentStats now s) = now.
Proof.
  intros Hempty. apply maxUpdatedAt_None in Hempty.
  unfold getDocumentStats. simpl. by rewrite Hempty.
Qed.

End StorageProperties.

(** ** Parser *)

Section ParserProperties.
Context {rt : Runtime}.
Import ParserService.






End ParserProperties.


(** ** Search *)

Section SearchProperties.
Context {rt : Runtime}.
Import SearchService.

Lemma slice0_subseteq {A : Type} (n : Z) (l : list A) : JS.slice0 n l ⊆ l.
Proof. unfold JS.slice0. destruct (0 <=? n); apply subseteq_take. Qed.

Lemma slice0_length {A : Type} (n : Z) (l : list A) :
  0 <= n → Z.of_nat (length (JS.slice0 n l)) <= n.
Proof.
  intros Hn. unfold JS.slice0. destruct (Z.leb_spec 0 n); [|lia].
  pose proof (firstn_le_length (Z.to_nat n) l). lia.
Qed.

Lemma filter_keeps {A : Type} (f : A → bool) (l : list A) (x : A) :
  x ∈ List.filter f l ↔ x ∈ l ∧ f x = true.
Proof. rewrite !list_elem_of_In. apply filter_In. Qed.

Lemma search_unfold (query : string) (options : SearchOptions)
    (idx : SearchIndex) (store : Store) (tick : nat) :
  let idx1 := (refresh idx store tick).1 in
  let limit := default 50 (opt_limit options) in
  (search query options idx store tick).1.2 = idx1 ∧
  (search query options idx store tick).1.1 =
    if negb (fuse_built idx1) || String.eqb (JS.trim query) EmptyString then []
    else toSearchResult <$>
           JS.slice0 limit
             (List.filter (tagsFilter (opt_tags options))
                (List.filter (typesFilter (opt_types options))
                   (List.filter (sourceIdsFilter (opt_sourceIds options))
                      (fuseSearch (idx_documents idx1)
                         (default defaultThreshold (opt_threshold options))
                         query (limit * 2))))).
Proof.
  unfold search. destruct (refresh idx store tick) as [idx1 tick1]. simpl.
  by destruct (negb (fuse_built idx1) || String.eqb (JS.trim query) EmptyString).
Qed.








(** C9, as amended.  Let [m] be the greatest [updatedAt] of the documents
    of the store when there are documents and it is not the epoch, and
    the reading of the clock when the store holds no document.  Then
    [lastUpdated] of the stats is [m], and [search] rebuilds its index
    before answering exactly when [m] is later than the last build. *)
Theorem lastUpdated_staleness_signal (m : Timestamp) (query : string)
    (options : SearchOptions) (idx : SearchIndex) (store : Store) (tick : nat) :
  (isMaxUpdatedAt store m ∧ m ≠ 0) ∨ (documents store = ∅ ∧ m = wall_clock tick) →
  lastUpdated (StorageService.getDocumentStats (wall_clock tick) store) = m ∧
  (search query options idx store tick).1.2 =
    if lastIndexUpdate idx <? m
    then (rebuildIndex store (statsLastUpdated store tick).2).1
    else idx.
Proof.
  intros Hm.
  assert (lastUpdated (StorageService.getDocumentStats (wall_clock tick) store) = m) as Hlast.
  { destruct Hm as [[Hmax Hne]|[Hempty ->]].
    - by apply lastUpdated_max.
    - by apply lastUpdated_empty. }
  split; [done|].
  destruct (search_unfold query options idx store tick) as [-> _].
  unfold refresh. unfold statsLastUpdated at 1. rewrite Hlast.
  by destruct (lastIndexUpdate idx <? m).
Qed.

End SearchProperties.


(** ** The properties at concrete hosts, stores and file systems *)

Section Examples.
Import Fixtures.






(** C9 at the store [threeDocs]: the greatest [updatedAt] is 300, and a
    fresh index is rebuilt. *)
Lemma lastUpdated_staleness_signal_witness :
  lastUpdated (StorageService.getDocumentStats (@wall_clock host 0) threeDocs) = 300 ∧
  (SearchService.search (rt := host) "Readme" (SearchService.limitOnly 5)
     newSearchIndex threeDocs 0).1.2 =
  (SearchService.rebuildIndex (rt := host) threeDocs 0).1.
Proof.
  refine (lastUpdated_staleness_signal (rt := host) 300 "Readme" (SearchService.limitOnly 5)
            newSearchIndex threeDocs 0 _).
  left. split; [|done]. apply maxUpdatedAt_Some. vm_compute. reflexivity.
Defined.

(** The claim C9 fails on the empty store, where [lastUpdated] is the
    current time and the [updatedAt] of no document.  It fails too on a
    store whose only document was last updated at the epoch: the greatest
    [updatedAt] is 0 and [lastUpdated] is the current time. *)
Lemma lastUpdated_not_maximum :
  (lastUpdated (StorageService.getDocumentStats 1000 emptyStore) = 1000 ∧
   ¬ isMaxUpdatedAt emptyStore
       (lastUpdated (StorageService.getDocumentStats 1000 emptyStore))) ∧
  (let store := StorageService.saveDocument (doc "a" "Readme" "s1" 0) emptyStore in
   isMaxUpdatedAt store 0 ∧
   lastUpdated (StorageService.getDocumentStats 1000 store) = 1000).
Proof.
  split; [split|split].
  - reflexivity.
  - intros [[k [d [Hk _]]] _]. simpl in Hk. by rewrite lookup_empty in Hk.
  - apply maxUpdatedAt_Some. vm_compute. reflexivity.
  - vm_compute. reflexivity.
Qed.

(** C5 at the store [threeDocs]: deleting source s1 leaves no document,
    no status row and no source row. *)
Example deleteSource_example :
  let out := StorageService.deleteSource "s1" threeDocs in
  out.1 = true ∧ documents out.2 = ∅ ∧ source_status out.2 = ∅ ∧ sources out.2 = ∅.
Proof. repeat split; vm_compute; reflexivity. Qed.

End Examples.


(** ** Crawler *)

Section CrawlerProperties.
Context {rt : Runtime}.
Import CrawlerService.

(** The four ways through [crawlFile]. *)
Lemma crawlFile_cases (fs : FileSystem) (source : SourceConfig) (maxSize : Z)
    (fullPath : string) (st : CrawlState) :
  (∃ msg, fs_stat fs fullPath = Throw msg ∧
     crawlFile fs source maxSize fullPath st =
       onResult (λ r, incSkipped
                        (pushError ("Error processing file " +:+ fullPath +:+ ": " +:+ msg) r))
                st) ∨
  (∃ stats, fs_stat fs fullPath = Ok stats ∧
     (maxSize < stat_size stats ∨ ParserService.canParse fullPath = false) ∧
     crawlFile fs source maxSize fullPath st = onResult incSkipped st) ∨
  (∃ stats d, fs_stat fs fullPath = Ok stats ∧
     stat_size stats <= maxSize ∧ ParserService.canParse fullPath = true ∧
     documents (cs_store st) !! docId source fullPath = Some d ∧
     stat_mtime stats <= doc_updatedAt d ∧
     crawlFile fs source maxSize fullPath st = onResult incSkipped (onResult incFound st)) ∨
  (∃ stats, fs_stat fs fullPath = Ok stats ∧
     stat_size stats <= maxSize ∧ ParserService.canParse fullPath = true ∧
     (∀ d, documents (cs_store st) !! docId source fullPath = Some d →
           doc_updatedAt d < stat_mtime stats) ∧
     crawlFile fs source maxSize fullPath st =
       parseAndSave fs source fullPath (onResult incFound st)).
Proof.
  unfold crawlFile. destruct (fs_stat fs fullPath) as [stats|msg]; [|left; eauto].
  right. destruct (Z.ltb_spec maxSize (stat_size stats)); [left; eauto|].
  destruct (ParserService.canParse fullPath) eqn:Hcan; simpl; [|left; eauto].
  right. unfold StorageService.getDocument. simpl.
  destruct (documents (cs_store st) !! docId source fullPath) as [d|] eqn:Hd; simpl.
  - destruct (Z.leb_spec (stat_mtime stats) (doc_updatedAt d)).
    + left. exists stats, d. eauto 10.
    + right. exists stats. repeat split; try done. by intros d' [= <-].
  - right. exists stats. repeat split; done.
Qed.

(** A property of pairs of states that holds of every step of the walk
    holds of the walk. *)
Lemma crawlEntries_steps (fs : FileSystem) (source : SourceConfig) (maxSize : Z)
    (P : CrawlState → CrawlState → Prop)
    (descend : string → CrawlState → CrawlState) :
  (∀ st, P st st) →
  (∀ a b c, P a b → P b c → P a c) →
  (∀ st, P st (onResult incSkipped st)) →
  (∀ msg st, P st (onResult (pushError msg) st)) →
  (∀ fullPath st, P st (crawlFile fs source maxSize fullPath st)) →
  (∀ path st, P st (descend path st)) →
  ∀ dirPath entries st,
    P st (crawlEntries fs source maxSize descend dirPath entries st).
Proof.
  intros Hrefl Htrans Hskip Herr Hfile Hdesc dirPath entries.
  induction entries as [|entry rest IH]; intros st; simpl; [done|].
  destruct (shouldProcessPath _ _) as [[|]|msg]; [| |done].
  - eapply Htrans; [|apply IH].
    destruct (dirent_isDirectory entry); [done|].
    by destruct (dirent_isFile entry).
  - eapply Htrans; [|apply IH]. done.
Qed.

Lemma crawlDirectory_steps (fs : FileSystem) (source : SourceConfig) (maxSize : Z)
    (P : CrawlState → CrawlState → Prop) :
  (∀ st, P st st) →
  (∀ a b c, P a b → P b c → P a c) →
  (∀ st, P st (onResult incSkipped st)) →
  (∀ msg st, P st (onResult (pushError msg) st)) →
  (∀ fullPath st, P st (crawlFile fs source maxSize fullPath st)) →
  ∀ remaining dirPath st,
    P st (crawlDirectory fs source maxSize remaining dirPath st).
Proof.
  intros Hrefl Htrans Hskip Herr Hfile remaining.
  induction remaining as [|remaining IH]; intros dirPath st; simpl; [done|].
  destruct (fs_readdir fs dirPath) as [entries|msg]; [|done].
  by apply crawlEntries_steps.
Qed.

Lemma parseAndSave_cases (fs : FileSystem) (source : SourceConfig)
    (fullPath : string) (st : CrawlState) :
  (∃ doc, (ParserService.parseFile fs fullPath (src_id source) (cs_tick st)).1 = Some doc ∧
     parseAndSave fs source fullPath st =
       {| cs_store := StorageService.saveDocument doc (cs_store st);
          cs_tick := S (cs_tick st);
          cs_result := incProcessed (cs_result st);
          cs_extracted := fullPath :: cs_extracted st |}) ∨
  ((ParserService.parseFile fs fullPath (src_id source) (cs_tick st)).1 = None ∧
     parseAndSave fs source fullPath st =
       {| cs_store := cs_store st;
          cs_tick := cs_tick st;
          cs_result := incSkipped (cs_result st);
          cs_extracted := fullPath :: cs_extracted st |}).
Proof.
  unfold parseAndSave, ParserService.parseFile.
  destruct (ParserService.parseFileBody fs fullPath (src_id source) (cs_tick st)); simpl;
    eauto.
Qed.

Lemma crawlDirectory_accounted (fs : FileSystem) (source : SourceConfig) (maxSize : Z)
    (remaining : nat) (dirPath : string) (st : CrawlState) :
  accounted st (crawlDirectory fs source maxSize remaining dirPath st).
Proof.
  apply crawlDirectory_steps; unfold accounted.
  - intros a. repeat split; lia.
  - intros a b c (-> & -> & -> & ?) (-> & -> & -> & ?). repeat split; lia.
  - intros a. simpl. repeat split; lia.
  - intros msg a. simpl. repeat split; lia.
  - intros fullPath a.
    destruct (crawlFile_cases fs source maxSize fullPath a)
      as [(msg & _ & ->)|[(stats & _ & _ & ->)|[(stats & d & _ & _ & _ & _ & _ & ->)|
          (stats & _ & _ & _ & _ & ->)]]]; simpl; try (repeat split; lia).
    destruct (parseAndSave_cases fs source fullPath (onResult incFound a))
      as [(doc & _ & ->)|(_ & ->)]; simpl; repeat split; lia.
Qed.


End CrawlerProperties.

(** ** Crawling twice *)

Section RecrawlProperties.
Context {rt : Runtime}.
Import CrawlerService.


















End RecrawlProperties.

(** ** The crawler and the parser at concrete file systems *)

Section CrawlExamples.
Import Fixtures.








(** C4 at three runs: a walk that records an error for a file ends in
    [success]; a missing root and a git source end in [error]. *)
Example crawlSource_status_examples :
  (let fs := fileSystem [("/docs"%string, dirStats)]
               [("/docs"%string, [fileEntry "gone.md"])] [] in
   let final := CrawlerService.crawlSource (rt := host) fs (localSource None) emptyStore 0 in
   st_status <$> status_writes (cs_store final) = [success; crawling] ∧
   length (errors (cs_result final)) = 1%nat) ∧
  (let final := CrawlerService.crawlSource (rt := host) (fileSystem [] [] [])
                  (localSource None) emptyStore 0 in
   st_status <$> status_writes (cs_store final) = [error; crawling] ∧
   errors (cs_result final) = ["Cannot access path: /docs"%string]) ∧
  (let source := {| src_id := "s2"; src_name := "repo"; src_type := git;
                    src_url := "https://example.org/repo.git"; src_enabled := true;
                    src_schedule := None; src_lastCrawled := None; src_filters := None |} in
   let final := CrawlerService.crawlSource (rt := host) oneFile source emptyStore 0 in
   st_status <$> status_writes (cs_store final) = [error; crawling] ∧
   errors (cs_result final) = ["Git sources not yet implemented"%string]).
Proof. repeat split; vm_compute; reflexivity. Qed.

End CrawlExamples.

(** ** Glob matching and the filters *)

Section GlobProperties.
Context {rt : Runtime}.
Import Glob CrawlerService.



















End GlobProperties.

(** ** Glob matching at concrete paths *)

Section GlobExamples.
Import Fixtures.



End GlobExamples.

(** * Further properties of the code *)

(** ** Storage: round trips, listings and statistics *)

Section StorageExtras.
Import StorageService.

Lemma documentRow_fixed (d : Document) :
  documentRow d = d ↔ doc_size d ≠ Some 0 ∧ doc_checksum d ≠ Some EmptyString.
Proof.
  destruct d as [i t c ty sid sp md tg ca ua sz ck]. unfold documentRow. simpl.
  split.
  - intros H. injection H as Hsz Hck. split.
    + intros ->. discriminate.
    + intros ->. discriminate.
  - intros [Hsz Hck]. f_equal.
    + destruct sz as [[| |]|]; try reflexivity. by destruct Hsz.
    + destruct ck as [[|]|]; try reflexivity. by destruct Hck.
Qed.

Lemma documentRow_idem (d : Document) : documentRow (documentRow d) = documentRow d.
Proof.
  apply documentRow_fixed. simpl. split.
  - destruct (doc_size d) as [[| |]|]; simpl; congruence.
  - destruct (doc_checksum d) as [[|]|]; simpl; congruence.
Qed.

(** X1.  A document that is saved is read back under its id with every
    field as saved, except that a size of 0 and an empty checksum come
    back absent: what is read is the document saved exactly when its size
    is not 0 and its checksum is not empty.  Saving leaves the documents
    under other ids, the sources and the status rows as they are. *)
Theorem saveDocument_getDocument (d : Document) (s : Store) :
  let s' := saveDocument d s in
  getDocument (doc_id d) s' = Some (documentRow d) ∧
  (getDocument (doc_id d) s' = Some d ↔
     doc_size d ≠ Some 0 ∧ doc_checksum d ≠ Some EmptyString) ∧
  (∀ id, id ≠ doc_id d → getDocument id s' = getDocument id s) ∧
  sources s' = sources s ∧ source_status s' = source_status s.
Proof.
  intros s'.
  assert (Hget : getDocument (doc_id d) s' = Some (documentRow d)).
  { unfold getDocument, s', saveDocument. simpl. rewrite lookup_insert_eq. simpl.
    unfold rowToDocument. by rewrite documentRow_idem. }
  split; [exact Hget|]. split; [|split; [|done]].
  - rewrite Hget. rewrite <- documentRow_fixed. split; congruence.
  - intros id Hid. unfold getDocument, s', saveDocument. simpl.
    by rewrite lookup_insert_ne.
Qed.


Lemma size_filter_values {A : Type} (P : A → Prop) `{!∀ x, Decision (P x)}
    (m : gmap string A) :
  size (filter (λ kv : string * A, P kv.2) m) = length (filter P (map_to_list m).*2).
Proof.
  induction m as [|i x m Hi IH] using map_ind.
  - by rewrite map_filter_empty, map_size_empty, map_to_list_empty.
  - rewrite (map_to_list_insert m i x Hi). simpl.
    destruct (decide (P x)) as [HP | HP].
    + rewrite map_filter_insert_True by done.
      rewrite map_size_insert_None by (by apply map_lookup_filter_None_2; left).
      rewrite filter_cons_True by done. simpl. by rewrite IH.
    + rewrite map_filter_insert_False by done.
      rewrite delete_id by done.
      rewrite filter_cons_False by done. done.
Qed.

Lemma length_documentRows (s : Store) : length (documentRows s) = size (documents s).
Proof. unfold documentRows. by rewrite length_fmap, length_map_to_list. Qed.

Lemma sumSizes_insert (m : gmap string Document) (id : string) (d : Document) :
  m !! id = None →
  foldr (λ d acc, default 0 (doc_size d) + acc) 0 (map_to_list (<[id := d]> m)).*2
  = default 0 (doc_size d)
    + foldr (λ d acc, default 0 (doc_size d) + acc) 0 (map_to_list m).*2.
Proof.
  intros Hid.
  assert (Hperm : (map_to_list (<[id := d]> m)).*2 ≡ₚ d :: (map_to_list m).*2).
  { by rewrite map_to_list_insert. }
  etrans; [apply (foldr_permutation (=) (λ d acc, default 0 (doc_size d) + acc) 0 _
                      (d :: (map_to_list m).*2)); [|exact Hperm]|done].
  intros j1 a1 j2 a2 b _ _ _. lia.
Qed.

(** X2.  Saving a document under an id that is not stored adds one to
    [totalDocuments] and its size (nothing when it has none) to
    [totalSize]; saving under an id that is stored replaces the row and
    keeps [totalDocuments]. *)
Theorem saveDocument_stats (now : Timestamp) (d : Document) (s : Store) :
  let before := getDocumentStats now s in
  let after := getDocumentStats now (saveDocument d s) in
  (getDocument (doc_id d) s = None →
   totalDocuments after = S (totalDocuments before) ∧
   totalSize after = totalSize before + default 0 (doc_size d)) ∧
  (is_Some (getDocument (doc_id d) s) → totalDocuments after = totalDocuments before).
Proof.
  intros before after. unfold before, after, getDocumentStats. cbn.
  rewrite !length_documentRows. cbn. split.
  - intros Hnone. unfold getDocument in Hnone.
    destruct (documents s !! doc_id d) eqn:Hd; [done|].
    split; [by apply map_size_insert_None|].
    unfold sumSizes, documentRows. cbn [documents saveDocument].
    rewrite sumSizes_insert by done. cbn.
    destruct (doc_size d) as [[| |]|]; cbn; lia.
  - intros Hsome. unfold getDocument in Hsome. apply fmap_is_Some in Hsome.
    by apply map_size_insert_Some.
Qed.

(** X3.  [deleteDocument] answers [true] exactly when a document is
    stored under the id.  Afterwards the id reads as absent and every
    other id as before; [totalDocuments] is one less when the answer is
    [true] and the same otherwise; sources and status rows are
    untouched. *)
Theorem deleteDocument_spec (now : Timestamp) (id : string) (s : Store) :
  let out := deleteDocument id s in
  (out.1 = true ↔ is_Some (getDocument id s)) ∧
  getDocument id out.2 = None ∧
  (∀ id', id' ≠ id → getDocument id' out.2 = getDocument id' s) ∧
  totalDocuments (getDocumentStats now out.2)
  = (totalDocuments (getDocumentStats now s) - (if out.1 then 1 else 0))%nat ∧
  sources out.2 = sources s ∧ source_status out.2 = source_status s.
Proof.
  intros out. unfold out, deleteDocument, getDocument. simpl.
  split; [|split; [|split; [|split; [|done]]]].
  - rewrite bool_decide_eq_true, fmap_is_Some. done.
  - by rewrite lookup_delete_eq.
  - intros id' Hid. by rewrite lookup_delete_ne.
  - rewrite !length_documentRows. simpl.
    destruct (documents s !! id) as [d|] eqn:Hd.
    + rewrite bool_decide_eq_true_2 by eauto.
      rewrite map_size_delete_Some by eauto. lia.
    + rewrite bool_decide_eq_false_2 by (intros [? ?]; congruence).
      rewrite map_size_delete_None by done. lia.
Qed.

Lemma newerFirst_trans : Transitive newerFirst.
Proof. intros a b c. unfold newerFirst. lia. Qed.

Lemma newerFirst_total : Total newerFirst.
Proof. intros a b. unfold newerFirst. lia. Qed.

Lemma getDocumentsBySource_iff (sourceId : string) (s : Store) (d : Document) :
  d ∈ getDocumentsBySource sourceId s ↔
  ∃ id, getDocument id s = Some d ∧ doc_sourceId d = sourceId.
Proof.
  unfold getDocumentsBySource. rewrite list_elem_of_fmap. split.
  - intros (row & -> & Hrow). rewrite merge_sort_Permutation in Hrow.
    apply list_elem_of_filter in Hrow as [Hsid Hin].
    apply documentRows_lookup in Hin as [k Hk].
    exists k. unfold getDocument. rewrite Hk. done.
  - intros (id & Hget & Hsid). unfold getDocument in Hget.
    destruct (documents s !! id) as [row|] eqn:Hrow; [|done].
    injection Hget as <-. exists row. split; [done|].
    rewrite merge_sort_Permutation. apply list_elem_of_filter. split; [done|].
    apply documentRows_lookup. eauto.
Qed.

Lemma getDocumentsBySource_length (sourceId : string) (s : Store) :
  length (getDocumentsBySource sourceId s)
  = size (filter (λ kv : string * Document, doc_sourceId kv.2 = sourceId) (documents s)).
Proof.
  unfold getDocumentsBySource. rewrite length_fmap, merge_sort_Permutation.
  symmetry. exact (size_filter_values (λ d, doc_sourceId d = sourceId) (documents s)).
Qed.

(** X4.  [getDocumentsBySource] returns exactly the stored documents
    that carry the source id, newest first ([updatedAt] never increases
    along the list), and as many of them as the table holds for the
    source. *)
Theorem getDocumentsBySource_sorted (sourceId : string) (s : Store) :
  StronglySorted newerFirst (getDocumentsBySource sourceId s) ∧
  (∀ d, d ∈ getDocumentsBySource sourceId s ↔
        ∃ id, getDocument id s = Some d ∧ doc_sourceId d = sourceId) ∧
  length (getDocumentsBySource sourceId s)
  = size (filter (λ kv : string * Document, doc_sourceId kv.2 = sourceId) (documents s)).
Proof.
  split; [|split].
  - unfold getDocumentsBySource. apply (StronglySorted_fmap _ newerFirst).
    + intros x y. unfold newerFirst. done.
    + apply (@StronglySorted_merge_sort _ newerFirst _ newerFirst_trans newerFirst_total).
  - apply getDocumentsBySource_iff.
  - apply getDocumentsBySource_length.
Qed.

Lemma countBy_lookup (key : Document → string) (rows : list Document) (k : string) :
  countBy key rows !! k =
    match length (filter (λ d, key d = k) rows) with
    | O => None
    | S n => Some (S n)
    end.
Proof.
  induction rows as [|d rows IH]; [done|].
  cbn [countBy foldr]. fold (countBy key rows).
  destruct (decide (key d = k)) as [Hk | Hk].
  - rewrite filter_cons_True by done. simpl. rewrite Hk, lookup_insert_eq.
    rewrite IH. by destruct (length _).
  - rewrite filter_cons_False by done. rewrite lookup_insert_ne by done. apply IH.
Qed.

Lemma countBy_default (key : Document → string) (rows : list Document) (k : string) :
  default 0%nat (countBy key rows !! k) = length (filter (λ d, key d = k) rows).
Proof. rewrite countBy_lookup. by destruct (length _). Qed.

(** X5.  The count that [getDocumentStats] reports for a source in
    [documentsBySource] is the number of documents [getDocumentsBySource]
    returns for it; a source has no entry exactly when it has no
    document, and no entry is 0. *)
Theorem documentsBySource_counts (sourceId : string) (s : Store) :
  default 0%nat (documentsBySource s !! sourceId)
  = length (getDocumentsBySource sourceId s) ∧
  (documentsBySource s !! sourceId = None ↔ getDocumentsBySource sourceId s = []) ∧
  (∀ n, documentsBySource s !! sourceId = Some n → (0 < n)%nat).
Proof.
  assert (Hlen : length (getDocumentsBySource sourceId s)
                 = length (filter (λ d, doc_sourceId d = sourceId) (documentRows s))).
  { unfold getDocumentsBySource. by rewrite length_fmap, merge_sort_Permutation. }
  unfold documentsBySource. split; [|split].
  - by rewrite countBy_default, Hlen.
  - rewrite countBy_lookup, <- Hlen.
    destruct (getDocumentsBySource sourceId s) as [|d l]; simpl;
      split; intros H; first [reflexivity | discriminate H].
  - intros n. rewrite countBy_lookup. clear Hlen.
    destruct (length (filter _ _)); [done|]. intros [= <-]. lia.
Qed.

Lemma length_by_type (rows : list Document) :
  length rows =
  (length (filter (λ d, typeName (doc_type d) = typeName markdown) rows)
   + length (filter (λ d, typeName (doc_type d) = typeName html) rows)
   + length (filter (λ d, typeName (doc_type d) = typeName pdf) rows)
   + length (filter (λ d, typeName (doc_type d) = typeName text) rows)
   + length (filter (λ d, typeName (doc_type d) = typeName json) rows))%nat.
Proof.
  induction rows as [|d rows IH]; [done|].
  destruct (doc_type d) eqn:Ht;
    repeat first
      [ rewrite filter_cons_True by (rewrite Ht; reflexivity)
      | rewrite filter_cons_False by (rewrite Ht; discriminate) ];
    cbn [length]; lia.
Qed.

(** X6.  Every entry of [documentsByType] is positive and stands for the
    type of a stored document, and the counts of the five document types
    add up to [totalDocuments]. *)
Theorem documentsByType_total (now : Timestamp) (s : Store) :
  (∀ k n, documentsByType s !! k = Some n →
          (0 < n)%nat ∧ ∃ d id, getDocument id s = Some d ∧ typeName (doc_type d) = k) ∧
  (default 0 (documentsByType s !! "markdown")
   + default 0 (documentsByType s !! "html")
   + default 0 (documentsByType s !! "pdf")
   + default 0 (documentsByType s !! "text")
   + default 0 (documentsByType s !! "json"))%nat
  = totalDocuments (getDocumentStats now s).
Proof.
  unfold documentsByType. split.
  - intros k n. rewrite countBy_lookup.
    destruct (filter _ _) as [|d l] eqn:Hf; [done|]. simpl. intros [= <-].
    split; [lia|].
    assert (Hd : d ∈ filter (λ d, typeName (doc_type d) = k) (documentRows s))
      by (rewrite Hf; left).
    apply list_elem_of_filter in Hd as [Hk Hin].
    apply documentRows_lookup in Hin as [id Hid].
    exists (rowToDocument d), id. unfold getDocument. rewrite Hid. done.
  - rewrite !countBy_default. simpl. symmetry. apply length_by_type.
Qed.

(** X7.  [deleteSource] lowers [totalDocuments] by the number of
    documents of the source, removes the entry of the source from
    [documentsBySource] and keeps the entries of the other sources. *)
Theorem deleteSource_counts (now : Timestamp) (id : string) (s : Store) :
  let s' := (deleteSource id s).2 in
  (totalDocuments (getDocumentStats now s') + length (getDocumentsBySource id s))%nat
  = totalDocuments (getDocumentStats now s) ∧
  documentsBySource s' !! id = None ∧
  (∀ other, other ≠ id → documentsBySource s' !! other = documentsBySource s !! other).
Proof.
  intros s'. split; [|split].
  - unfold s'. cbn. rewrite !length_documentRows. simpl.
    rewrite getDocumentsBySource_length.
    rewrite <- (map_filter_union_complement
                  (λ kv : string * Document, doc_sourceId kv.2 = id) (documents s)) at 3.
    rewrite map_size_disj_union by apply map_disjoint_filter_complement.
    lia.
  - unfold documentsBySource. rewrite countBy_lookup.
    rewrite filter_none; [done|].
    intros d Hd. apply documentRows_lookup in Hd as [k Hk].
    unfold s' in Hk. cbn in Hk. apply map_lookup_filter_Some in Hk as [_ Hne]. done.
  - intros other Hother. unfold documentsBySource. rewrite !countBy_lookup.
    unfold documentRows, s'. cbn.
    rewrite <- !(size_filter_values (λ d, doc_sourceId d = other)).
    rewrite map_filter_filter.
    assert (Heq : filter (λ '(i, x), doc_sourceId (i, x).2 = other ∧ doc_sourceId (i, x).2 ≠ id)
                    (documents s)
                  = filter (λ kv : string * Document, doc_sourceId kv.2 = other) (documents s)).
    { apply map_filter_ext. intros k d _. simpl. split; [tauto|].
      intros Hd. split; [done|congruence]. }
    by rewrite Heq.
Qed.


Lemma leb_le (a b : string) :
  String.leb a b = true ↔ a = b ∨ OrderedTypeEx.String_as_OT.lt a b.
Proof.
  unfold String.leb.
  pose proof (OrderedTypeEx.String_as_OT.cmp_eq a b) as Heq.
  pose proof (OrderedTypeEx.String_as_OT.cmp_lt a b) as Hlt.
  unfold OrderedTypeEx.String_as_OT.cmp in *.
  destruct (String.compare a b); split; try done.
  - intros _. left. by apply Heq.
  - intros _. right. by apply Hlt.
  - intros [H | H]; [apply Heq in H | apply Hlt in H]; discriminate.
Qed.

Lemma byName_trans : Transitive byName.
Proof.
  intros a b c. unfold byName. rewrite !leb_le.
  intros [-> | Hab] [<- | Hbc]; eauto.
  right. eapply OrderedTypeEx.String_as_OT.lt_trans; eauto.
Qed.

Lemma byName_total : Total byName.
Proof. intros a b. unfold byName. apply String.leb_total. Qed.

Lemma sourceRow_fixed (source : SourceConfig) :
  sourceRow source = source ↔
  src_schedule source ≠ Some EmptyString ∧ src_lastCrawled source ≠ Some 0.
Proof.
  destruct source as [i n t u e sch lc f]. unfold sourceRow. simpl. split.
  - intros H. injection H as Hsch Hlc. split.
    + intros ->. discriminate.
    + intros ->. discriminate.
  - intros [Hsch Hlc]. f_equal.
    + destruct sch as [[|]|]; try reflexivity. by destruct Hsch.
    + destruct lc as [[| |]|]; try reflexivity. by destruct Hlc.
Qed.

Lemma sourceRow_idem (source : SourceConfig) :
  sourceRow (sourceRow source) = sourceRow source.
Proof.
  apply sourceRow_fixed. simpl. split.
  - destruct (src_schedule source) as [[|]|]; simpl; congruence.
  - destruct (src_lastCrawled source) as [[| |]|]; simpl; congruence.
Qed.

Lemma getAllSources_elem (s : Store) (source : SourceConfig) :
  source ∈ getAllSources s ↔ ∃ id, getSource id s = Some source.
Proof.
  unfold getAllSources, getSource. rewrite list_elem_of_fmap. split.
  - intros (row & -> & Hrow). rewrite merge_sort_Permutation in Hrow.
    apply list_elem_of_fmap in Hrow as ([k row'] & -> & Hin).
    apply elem_of_map_to_list in Hin. exists k. by rewrite Hin.
  - intros (id & Hget). destruct (sources s !! id) as [row|] eqn:Hrow; [|done].
    injection Hget as <-. exists row. split; [done|].
    rewrite merge_sort_Permutation. apply list_elem_of_fmap.
    exists (id, row). split; [done|]. by apply elem_of_map_to_list.
Qed.

(** X8.  [getAllSources] returns exactly the sources that [getSource]
    finds, one per row of the table, ordered by name. *)
Theorem getAllSources_sorted (s : Store) :
  StronglySorted byName (getAllSources s) ∧
  (∀ source, source ∈ getAllSources s ↔ ∃ id, getSource id s = Some source) ∧
  length (getAllSources s) = size (sources s).
Proof.
  split; [|split].
  - unfold getAllSources. apply (StronglySorted_fmap _ byName).
    + intros x y. unfold byName. done.
    + apply (@StronglySorted_merge_sort _ byName _ byName_trans byName_total).
  - apply getAllSources_elem.
  - unfold getAllSources.
    by rewrite length_fmap, merge_sort_Permutation, length_fmap, length_map_to_list.
Qed.

(** X9.  A source that is saved is found by [getSource] under its id
    and listed by [getAllSources], with an empty schedule and a
    [lastCrawled] of 0 read back as absent: what is read is the source
    saved exactly when neither is the case.  Saving leaves the other
    sources, the documents and the status rows as they are. *)
Theorem saveSource_getSource (source : SourceConfig) (s : Store) :
  let s' := saveSource source s in
  getSource (src_id source) s' = Some (sourceRow source) ∧
  (getSource (src_id source) s' = Some source ↔
     src_schedule source ≠ Some EmptyString ∧ src_lastCrawled source ≠ Some 0) ∧
  sourceRow source ∈ getAllSources s' ∧
  (∀ id, id ≠ src_id source → getSource id s' = getSource id s) ∧
  documents s' = documents s ∧ source_status s' = source_status s.
Proof.
  intros s'.
  assert (Hget : getSource (src_id source) s' = Some (sourceRow source)).
  { unfold getSource, s', saveSource. simpl. rewrite lookup_insert_eq. simpl.
    by rewrite sourceRow_idem. }
  split; [exact Hget|]. split; [|split; [|split; [|done]]].
  - rewrite Hget. rewrite <- sourceRow_fixed. split; congruence.
  - apply getAllSources_elem. eauto.
  - intros id Hid. unfold getSource, s', saveSource. simpl.
    by rewrite lookup_insert_ne.
Qed.

Lemma statusRow_fixed (status : SourceStatus) :
  statusRow status = status ↔
  st_lastRun status ≠ Some 0 ∧ st_lastError status ≠ Some EmptyString ∧
  st_duration status ≠ Some 0.
Proof.
  destruct status as [i k lr le f p sk du]. unfold statusRow. simpl. split.
  - intros H. injection H as Hlr Hle Hdu. split; [|split].
    + intros ->. discriminate.
    + intros ->. discriminate.
    + intros ->. discriminate.
  - intros (Hlr & Hle & Hdu). f_equal.
    + destruct lr as [[| |]|]; try reflexivity. by destruct Hlr.
    + destruct le as [[|]|]; try reflexivity. by destruct Hle.
    + destruct du as [[| |]|]; try reflexivity. by destruct Hdu.
Qed.

Lemma statusRow_idem (status : SourceStatus) :
  statusRow (statusRow status) = statusRow status.
Proof.
  apply statusRow_fixed. simpl. split; [|split].
  - destruct (st_lastRun status) as [[| |]|]; simpl; congruence.
  - destruct (st_lastError status) as [[|]|]; simpl; congruence.
  - destruct (st_duration status) as [[| |]|]; simpl; congruence.
Qed.

(** X10.  Status rows replace each other: after two writes for the same
    source [getSourceStatus] returns the second row, with a [lastRun] of
    0, an empty [lastError] and a [duration] of 0 read back as absent.
    The rows of other sources, the documents and the sources are
    untouched. *)
Theorem updateSourceStatus_getSourceStatus (first last : SourceStatus) (s : Store) :
  st_sourceId first = st_sourceId last →
  let s' := updateSourceStatus last (updateSourceStatus first s) in
  getSourceStatus (st_sourceId last) s' = Some (statusRow last) ∧
  (getSourceStatus (st_sourceId last) s' = Some last ↔
     st_lastRun last ≠ Some 0 ∧ st_lastError last ≠ Some EmptyString ∧
     st_duration last ≠ Some 0) ∧
  (∀ id, id ≠ st_sourceId last → getSourceStatus id s' = getSourceStatus id s) ∧
  documents s' = documents s ∧ sources s' = sources s.
Proof.
  intros Hid s'.
  assert (Hget : getSourceStatus (st_sourceId last) s' = Some (statusRow last)).
  { unfold getSourceStatus, s', updateSourceStatus. simpl. rewrite lookup_insert_eq. simpl.
    by rewrite statusRow_idem. }
  split; [exact Hget|]. split; [|split; [|done]].
  - rewrite Hget. rewrite <- statusRow_fixed. split; congruence.
  - intros id Hne. unfold getSourceStatus, s', updateSourceStatus. simpl.
    rewrite !lookup_insert_ne by congruence. done.
Qed.

End StorageExtras.

(** ** Parser: what a document records *)

Section ParserExtras.
Context {rt : Runtime}.
Import ParserService.

Lemma objGet_objSet_eq (k : string) (v : JValue) (o : Metadata) :
  objGet k (objSet k v o) = Some v.
Proof.
  induction o as [|[k' v'] o IH]; simpl.
  - by rewrite String.eqb_refl.
  - destruct (String.eqb k k') eqn:Hk; simpl.
    + by rewrite String.eqb_refl.
    + by rewrite Hk.
Qed.

Lemma objGet_objSet_ne (k k' : string) (v : JValue) (o : Metadata) :
  k ≠ k' → objGet k (objSet k' v o) = objGet k o.
Proof.
  intros Hne. induction o as [|[k2 v2] o IH]; simpl.
  - destruct (String.eqb_spec k k'); done.
  - destruct (String.eqb_spec k' k2) as [-> | Hk2]; simpl.
    + destruct (String.eqb_spec k k2); done.
    + destruct (String.eqb_spec k k2); done.
Qed.

Lemma parseFile_unfold (fs : FileSystem) (filePath sourceId : string) (tick : nat)
    (doc : Document) :
  (parseFile fs filePath sourceId tick).1 = Some doc →
  ∃ stats buffer parseResult documentType,
    fs_stat fs filePath = Ok stats ∧
    fs_readFile fs filePath = Ok buffer ∧
    parseByExtension (JS.toLowerCase (Path.extname filePath)) buffer
      = Ok (parseResult, documentType) ∧
    parseFileBody fs filePath sourceId tick = Ok doc.
Proof.
  unfold parseFile. destruct (parseFileBody fs filePath sourceId tick) as [d|] eqn:Hbody;
    [|done].
  simpl. intros [= ->]. unfold parseFileBody in Hbody.
  destruct (fs_stat fs filePath) as [stats|]; [|done].
  destruct (fs_readFile fs filePath) as [buffer|]; [|done].
  destruct (parseByExtension _ buffer) as [[parseResult documentType]|] eqn:Hp; [|done].
  exists stats, buffer, parseResult, documentType. done.
Qed.

Lemma parseFile_built (fs : FileSystem) (filePath sourceId : string) (tick : nat)
    (doc : Document) :
  (parseFile fs filePath sourceId tick).1 = Some doc →
  ∃ stats buffer,
    fs_stat fs filePath = Ok stats ∧
    fs_readFile fs filePath = Ok buffer ∧
    doc_id doc = sha256_hex (sourceId +:+ ":" +:+ filePath) ∧
    doc_sourceId doc = sourceId ∧
    doc_sourcePath doc = filePath ∧
    doc_size doc = Some (stat_size stats) ∧
    doc_checksum doc = Some (md5_hex buffer) ∧
    doc_createdAt doc = stat_birthtime stats ∧
    doc_updatedAt doc = Z.min (wall_clock tick) (stat_mtime stats).
Proof.
  unfold parseFile, parseFileBody.
  destruct (fs_stat fs filePath) as [stats|]; [|done].
  destruct (fs_readFile fs filePath) as [buffer|]; [|done].
  destruct (parseByExtension _ buffer) as [[parseResult documentType]|]; [|done].
  simpl. intros [= <-]. exists stats, buffer. simpl.
  destruct (Z.ltb_spec (wall_clock tick) (stat_mtime stats)); repeat split; lia.
Qed.

(** X11.  A document that [parseFile] builds records where it comes
    from: the source id and the path it was called with, the size, the
    creation time and the modification time that [stat] reports, and the
    MD5 digest of the bytes read.  Its [updatedAt] is the earlier of the
    modification time and the clock, so it is never ahead of the
    clock. *)
Theorem parseFile_provenance (fs : FileSystem) (filePath sourceId : string) (tick : nat)
    (doc : Document) :
  (parseFile fs filePath sourceId tick).1 = Some doc →
  ∃ stats buffer,
    fs_stat fs filePath = Ok stats ∧
    fs_readFile fs filePath = Ok buffer ∧
    doc_sourceId doc = sourceId ∧
    doc_sourcePath doc = filePath ∧
    doc_size doc = Some (stat_size stats) ∧
    doc_checksum doc = Some (md5_hex buffer) ∧
    doc_createdAt doc = stat_birthtime stats ∧
    doc_updatedAt doc = Z.min (wall_clock tick) (stat_mtime stats) ∧
    doc_updatedAt doc <= wall_clock tick ∧
    doc_updatedAt doc <= stat_mtime stats.
Proof.
  intros Hdoc.
  destruct (parseFile_built _ _ _ _ _ Hdoc)
    as (stats & buffer & Hstat & Hread & _ & Hsid & Hpath & Hsize & Hsum & Hc & Hu).
  exists stats, buffer. repeat split; try done; lia.
Qed.

(** X12.  The metadata of a document that [parseFile] builds always
    carries [fileName], [extension] (in lower case) and [directory] of the
    path, whatever the format handler put under these keys; every other
    key reads as the format handler left it. *)
Theorem parseFile_metadata (fs : FileSystem) (filePath sourceId : string) (tick : nat)
    (doc : Document) :
  (parseFile fs filePath sourceId tick).1 = Some doc →
  ∃ metadata buffer parseResult documentType,
    doc_metadata doc = Some metadata ∧
    objGet "fileName" metadata = Some (JStr (Path.basename filePath)) ∧
    objGet "extension" metadata = Some (JStr (JS.toLowerCase (Path.extname filePath))) ∧
    objGet "directory" metadata = Some (JStr (Path.dirname filePath)) ∧
    fs_readFile fs filePath = Ok buffer ∧
    parseByExtension (JS.toLowerCase (Path.extname filePath)) buffer
      = Ok (parseResult, documentType) ∧
    (∀ key, key ∉ ["fileName"; "extension"; "directory"]%string →
            objGet key metadata = objGet key (default [] (pr_metadata parseResult))).
Proof.
  unfold parseFile, parseFileBody.
  destruct (fs_stat fs filePath) as [stats|]; [|done].
  destruct (fs_readFile fs filePath) as [buffer|]; [|done].
  destruct (parseByExtension _ buffer) as [[parseResult documentType]|] eqn:Hp; [|done].
  simpl. intros [= <-]. eexists _, buffer, parseResult, documentType. simpl.
  split; [reflexivity|].
  split; [|split; [|split; [|split; [done|split; [done|]]]]].
  - rewrite !objGet_objSet_ne by done. apply objGet_objSet_eq.
  - rewrite objGet_objSet_ne by done. apply objGet_objSet_eq.
  - apply objGet_objSet_eq.
  - intros key Hkey. rewrite !objGet_objSet_ne; [done|..];
      intros ->; apply Hkey; set_solver.
Qed.

(** X13.  [parseFile] does not refuse a file whose extension [canParse]
    rejects: when the file can be read it is handled as plain text, and
    the document has type [text], the white-space-normalised bytes as
    content and no tags. *)
Theorem parseFile_unsupported_as_text (fs : FileSystem) (filePath sourceId : string)
    (tick : nat) (stats : FsStats) (buffer : string) :
  canParse filePath = false →
  fs_stat fs filePath = Ok stats →
  fs_readFile fs filePath = Ok buffer →
  ∃ doc,
    parseFile fs filePath sourceId tick = (Some doc, S tick) ∧
    doc_type doc = text ∧
    doc_content doc = collapse buffer ∧
    doc_tags doc = None.
Proof.
  intros Hcan Hstat Hread. unfold canParse, supportedExtensions in Hcan.
  apply bool_decide_eq_false in Hcan.
  unfold parseFile, parseFileBody. rewrite Hstat, Hread.
  set (ext := JS.toLowerCase (Path.extname filePath)) in *.
  assert (Hext : parseByExtension ext buffer = Ok (parseText buffer, text)).
  { unfold parseByExtension.
    repeat (rewrite bool_decide_eq_false_2; [|intros H; apply Hcan; set_solver]).
    done. }
  rewrite Hext. eexists. split; [reflexivity|]. done.
Qed.

Lemma collapseSpaces_singleBlanks (b : bool) (s : string) :
  singleBlanks b (JS.collapseSpaces b s) = true.
Proof.
  revert b. induction s as [|c s IH]; intros b; [done|].
  simpl. destruct (JS.isSpace c) eqn:Hc.
  - destruct b; [apply IH|]. simpl. apply IH.
  - simpl. rewrite Hc. apply IH.
Qed.

Lemma singleBlanks_collapseSpaces (b : bool) (s : string) :
  singleBlanks b s = true → JS.collapseSpaces b s = s.
Proof.
  revert b. induction s as [|c s IH]; intros b; [done|].
  simpl. destruct (JS.isSpace c) eqn:Hc.
  - intros H. apply andb_true_iff in H as [H Hs]. apply andb_true_iff in H as [Hblank Hb].
    apply Ascii.eqb_eq in Hblank as ->. destruct b; [done|]. by rewrite (IH true).
  - intros H. by rewrite (IH false).
Qed.

Lemma singleBlanks_weaken (b : bool) (s : string) :
  singleBlanks true s = true → singleBlanks b s = true.
Proof.
  destruct s as [|c s]; [done|]. simpl. destruct (JS.isSpace c); [|done].
  rewrite andb_false_r. done.
Qed.

Lemma singleBlanks_trimStart (b : bool) (s : string) :
  singleBlanks b s = true → singleBlanks true (JS.trimStart s) = true.
Proof.
  revert b. induction s as [|c s IH]; intros b; [done|].
  simpl. destruct (JS.isSpace c) eqn:Hc.
  - intros H. apply andb_true_iff in H as [_ Hs]. by apply (IH true).
  - intros H. simpl. by rewrite Hc.
Qed.

Lemma trimEnd_cons (c : ascii) (s : string) :
  JS.trimEnd (String c s) =
    match JS.trimEnd s with
    | EmptyString => if JS.isSpace c then EmptyString else String c EmptyString
    | t => String c t
    end.
Proof. done. Qed.

Lemma singleBlanks_cons (b : bool) (c : ascii) (s : string) :
  singleBlanks b (String c s) =
    if JS.isSpace c
    then Ascii.eqb c " "%char && negb b && singleBlanks true s
    else singleBlanks false s.
Proof. done. Qed.

Lemma singleBlanks_trimEnd (b : bool) (s : string) :
  singleBlanks b s = true → singleBlanks b (JS.trimEnd s) = true.
Proof.
  revert b. induction s as [|c s IH]; intros b; [done|].
  rewrite trimEnd_cons, singleBlanks_cons.
  destruct (JS.isSpace c) eqn:Hc.
  - intros H. apply andb_true_iff in H as [H Hs].
    specialize (IH true Hs). destruct (JS.trimEnd s) as [|c' t]; [done|].
    rewrite singleBlanks_cons, Hc, H, IH. done.
  - intros H. specialize (IH false H). destruct (JS.trimEnd s) as [|c' t].
    + simpl. by rewrite Hc.
    + rewrite singleBlanks_cons, Hc. done.
Qed.

Lemma trimEnd_idem (s : string) : JS.trimEnd (JS.trimEnd s) = JS.trimEnd s.
Proof.
  induction s as [|c s IH]; [done|].
  rewrite trimEnd_cons. destruct (JS.trimEnd s) as [|c' t] eqn:Ht.
  - destruct (JS.isSpace c) eqn:Hc; [done|]. simpl. by rewrite Hc.
  - rewrite trimEnd_cons, IH. done.
Qed.

Lemma trimStart_fixed (s : string) :
  singleBlanks true s = true → JS.trimStart s = s.
Proof.
  destruct s as [|c s]; [done|]. simpl. destruct (JS.isSpace c); [|done].
  rewrite andb_false_r. done.
Qed.

(** X14.  The text that the format handlers store as content, [collapse]
    of the raw text, is in normal form: white space occurs in it only as
    single blanks between other characters, never at either end, and
    collapsing it again changes nothing. *)
Theorem collapse_normal_form (s : string) :
  let t := collapse s in
  singleBlanks true t = true ∧
  JS.trimEnd t = t ∧
  collapse t = t.
Proof.
  intros t.
  assert (Hsb : singleBlanks true t = true).
  { unfold t, collapse, JS.trim. apply singleBlanks_trimEnd.
    apply (singleBlanks_trimStart false). apply collapseSpaces_singleBlanks. }
  assert (Hend : JS.trimEnd t = t).
  { unfold t, collapse, JS.trim. apply trimEnd_idem. }
  split; [done|]. split; [done|].
  unfold collapse at 1. unfold JS.trim.
  rewrite (singleBlanks_collapseSpaces false) by by apply singleBlanks_weaken.
  rewrite trimStart_fixed by done. done.
Qed.

End ParserExtras.

(** ** Crawler: counters, writes and limits *)

Section CrawlerExtras.
Context {rt : Runtime}.
Import CrawlerService.

Lemma crawlDirectory_counted (fs : FileSystem) (source : SourceConfig) (maxSize : Z)
    (remaining : nat) (dirPath : string) (st : CrawlState) :
  counted st (crawlDirectory fs source maxSize remaining dirPath st).
Proof.
  apply crawlDirectory_steps; unfold counted.
  - intros a. exists [], 0%nat, 0%nat. simpl. repeat split; lia.
  - intros a b c (n1 & f1 & p1 & He1 & Hf1 & Hp1 & ? & ?) (n2 & f2 & p2 & He2 & Hf2 & Hp2 & ? & ?).
    exists (n2 ++ n1), (f1 + f2)%nat, (p1 + p2)%nat.
    rewrite He2, He1, Hf2, Hf1, Hp2, Hp1, length_app, app_assoc. repeat split; lia.
  - intros a. exists [], 0%nat, 0%nat. simpl. repeat split; lia.
  - intros msg a. exists [], 0%nat, 0%nat. simpl. repeat split; lia.
  - intros fullPath a.
    destruct (crawlFile_cases fs source maxSize fullPath a)
      as [(msg & _ & ->)|[(stats & _ & _ & ->)|[(stats & d & _ & _ & _ & _ & _ & ->)|
          (stats & _ & _ & _ & _ & ->)]]]; simpl.
    + exists [], 0%nat, 0%nat. simpl. repeat split; lia.
    + exists [], 0%nat, 0%nat. simpl. repeat split; lia.
    + exists [], 1%nat, 0%nat. simpl. repeat split; lia.
    + destruct (parseAndSave_cases fs source fullPath (onResult incFound a))
        as [(doc & _ & ->)|(_ & ->)]; simpl.
      * exists [fullPath], 1%nat, 1%nat. simpl. repeat split; lia.
      * exists [fullPath], 1%nat, 0%nat. simpl. repeat split; lia.
Qed.

(** The two ways a run of [crawlSource] ends. *)
Lemma crawlSource_cases (fs : FileSystem) (source : SourceConfig) (store : Store)
    (tick : nat) :
  let final := crawlSource fs source store tick in
  let started :=
    {| cs_store :=
         StorageService.updateSourceStatus
           {| st_sourceId := src_id source; st_status := crawling;
              st_lastRun := Some (wall_clock (tick + 1)); st_lastError := None;
              st_documentsFound := 0; st_documentsProcessed := 0;
              st_documentsSkipped := 0; st_duration := None |} store;
       cs_tick := (tick + 2)%nat; cs_result := emptyResult; cs_extracted := [] |} in
  let walked :=
    crawlDirectory fs source (effectiveMaxSize source)
      (Z.to_nat (effectiveMaxDepth source - 0)) (rootPath source) started in
  ((src_type source ≠ local ∨ rootAccessible fs source = false) ∧
   ∃ msg, cs_result final = pushError msg emptyResult ∧ cs_extracted final = [] ∧
          documents (cs_store final) = documents store ∧
          sources (cs_store final) = sources store ∧
          ∃ row, st_status row = error ∧ st_documentsProcessed row = 0%nat ∧
                 source_status (cs_store final) = <[src_id source := row]> (source_status store)) ∨
  (src_type source = local ∧ rootAccessible fs source = true ∧
   cs_result final = cs_result walked ∧ cs_extracted final = cs_extracted walked ∧
   documents (cs_store final) = documents (cs_store walked) ∧
   sources (cs_store final)
   = <[src_id source :=
         StorageService.sourceRow (withLastCrawled (wall_clock (cs_tick walked + 2)) source)]>
       (sources store) ∧
   ∃ row, st_status row = success ∧
          st_documentsProcessed row = documentsProcessed (cs_result walked) ∧
          source_status (cs_store final) = <[src_id source := row]> (source_status store)).
Proof.
  intros final started walked.
  unfold final, crawlSource, crawlByType, crawlLocalFiles.
  destruct (src_type source) eqn:Hty;
    try (left; split; [left; done|]; eexists; simpl; repeat split;
         eexists; repeat split; [| |simpl; rewrite insert_insert_eq; reflexivity];
         reflexivity).
  destruct (rootAccessible fs source) eqn:Hroot.
  - right. fold started. fold walked.
    destruct (crawlDirectory_accounted fs source (effectiveMaxSize source)
                (Z.to_nat (effectiveMaxDepth source - 0)) (rootPath source) started)
      as (Hst & Hw & Hsrc & _).
    fold walked in Hst, Hw, Hsrc.
    simpl. repeat split; try done.
    + by rewrite Hsrc.
    + eexists. repeat split; [| |rewrite Hst; simpl; rewrite insert_insert_eq; reflexivity];
        reflexivity.
  - left. split; [right; done|]. eexists; simpl; repeat split.
    eexists; repeat split; [| |simpl; rewrite insert_insert_eq; reflexivity]; reflexivity.
Qed.

(** X15.  The counters of a run of [crawlSource]: no more files are
    processed than are handed to the parser, no more are handed to the
    parser than are found, and every file found is counted as processed
    or as skipped. *)
Theorem crawlSource_counters (fs : FileSystem) (source : SourceConfig) (store : Store)
    (tick : nat) :
  let final := crawlSource fs source store tick in
  let result := cs_result final in
  (documentsProcessed result <= length (cs_extracted final))%nat ∧
  (length (cs_extracted final) <= documentsFound result)%nat ∧
  (documentsFound result <= documentsProcessed result + documentsSkipped result)%nat.
Proof.
  intros final result. unfold result, final.
  pose proof (crawlSource_cases fs source store tick) as Hcases. cbv zeta in Hcases.
  destruct Hcases as [(_ & msg & -> & -> & _)|(_ & _ & -> & -> & _)].
  - simpl. lia.
  - match goal with
    | |- context [crawlDirectory ?f ?s ?m ?r ?d ?st] =>
        pose proof (crawlDirectory_counted f s m r d st)
          as (new & found & processed & He & Hf & Hp & ? & ?);
        pose proof (crawlDirectory_accounted f s m r d st) as (_ & _ & _ & Hacc);
        set (walked := crawlDirectory f s m r d st) in *
    end.
    simpl in *. rewrite He, Hf, Hp, app_nil_r in *. repeat split; lia.
Qed.


Lemma ownWrites_refl (fs : FileSystem) (source : SourceConfig) (maxSize : Z)
    (a : CrawlState) :
  ownWrites fs source maxSize a a.
Proof. split; [exists []; split; [done|constructor]|]. intros id. by left. Qed.

Lemma ownWrites_same (fs : FileSystem) (source : SourceConfig) (maxSize : Z)
    (a a' : CrawlState) :
  cs_extracted a' = cs_extracted a → cs_store a' = cs_store a →
  ownWrites fs source maxSize a a'.
Proof.
  intros He Hs. split; [exists []; split; [done|constructor]|].
  intros id. left. by rewrite Hs.
Qed.

Lemma ownWrites_trans (fs : FileSystem) (source : SourceConfig) (maxSize : Z)
    (a b c : CrawlState) :
  ownWrites fs source maxSize a b → ownWrites fs source maxSize b c →
  ownWrites fs source maxSize a c.
Proof.
  intros [(n1 & He1 & Hn1) Hd1] [(n2 & He2 & Hn2) Hd2]. split.
  - exists (n2 ++ n1). split; [by rewrite He2, He1, app_assoc|]. by apply Forall_app.
  - intros id. destruct (Hd2 id) as [Hsame | Hnew]; [|by right].
    destruct (Hd1 id) as [Hsame1 | (path & d & Hin & Hid & Hd & Hrest)].
    + left. congruence.
    + right. exists path, d. split; [|split; [done|split; [congruence|done]]].
      rewrite He2. apply elem_of_app. by right.
Qed.

Lemma crawlFile_ownWrites (fs : FileSystem) (source : SourceConfig) (maxSize : Z)
    (fullPath : string) (a : CrawlState) :
  ownWrites fs source maxSize a (crawlFile fs source maxSize fullPath a).
Proof.
  destruct (crawlFile_cases fs source maxSize fullPath a)
    as [(msg & _ & ->)|[(stats & _ & _ & ->)|[(stats & d & _ & _ & _ & _ & _ & ->)|
        (stats & Hstat & Hsize & Hcan & _ & ->)]]]; try by apply ownWrites_same.
  assert (Hnew : Forall (λ path, ParserService.canParse path = true ∧
                          ∃ stats, fs_stat fs path = Ok stats ∧ stat_size stats <= maxSize)
                   [fullPath]).
  { constructor; [|constructor]. split; [done|]. eauto. }
  destruct (parseAndSave_cases fs source fullPath (onResult incFound a))
    as [(doc & Hdoc & ->)|(_ & ->)]; simpl.
  - split; [exists [fullPath]; done|]. simpl. intros id.
    destruct (parseFile_built _ _ _ _ _ Hdoc)
      as (_ & _ & _ & _ & Hid & Hsid & Hpath & _).
    destruct (decide (id = doc_id doc)) as [-> | Hne].
    + right. exists fullPath, (StorageService.documentRow doc).
      rewrite lookup_insert_eq. simpl. repeat split; try done. left.
    + left. by rewrite lookup_insert_ne.
  - split; [exists [fullPath]; done|]. simpl. intros id. by left.
Qed.

Lemma crawlDirectory_ownWrites (fs : FileSystem) (source : SourceConfig) (maxSize : Z)
    (remaining : nat) (dirPath : string) (st : CrawlState) :
  ownWrites fs source maxSize st (crawlDirectory fs source maxSize remaining dirPath st).
Proof.
  apply crawlDirectory_steps.
  - apply ownWrites_refl.
  - apply ownWrites_trans.
  - intros a. by apply ownWrites_same.
  - intros msg a. by apply ownWrites_same.
  - apply crawlFile_ownWrites.
Qed.

(** X16.  What a run of [crawlSource] does to the documents table.  It
    deletes nothing: an id that was stored is stored afterwards.  A row
    that differs afterwards is the document of a path handed to the
    parser, stored under the identifier of that path and carrying the
    id of the source.  Every path handed to the parser has a supported
    extension and a size within the limit of the source. *)
Theorem crawlSource_own_writes (fs : FileSystem) (source : SourceConfig) (store : Store)
    (tick : nat) :
  let final := crawlSource fs source store tick in
  (∀ id, is_Some (documents store !! id) → is_Some (documents (cs_store final) !! id)) ∧
  (∀ id, documents (cs_store final) !! id = documents store !! id ∨
         ∃ path d, path ∈ cs_extracted final ∧ id = docId source path ∧
                   documents (cs_store final) !! id = Some d ∧
                   doc_id d = id ∧ doc_sourceId d = src_id source ∧
                   doc_sourcePath d = path) ∧
  Forall (λ path, ParserService.canParse path = true ∧
                  ∃ stats, fs_stat fs path = Ok stats ∧
                           stat_size stats <= effectiveMaxSize source)
         (cs_extracted final).
Proof.
  intros final.
  assert (Hown : (∀ id, documents (cs_store final) !! id = documents store !! id ∨
         ∃ path d, path ∈ cs_extracted final ∧ id = docId source path ∧
                   documents (cs_store final) !! id = Some d ∧
                   doc_id d = id ∧ doc_sourceId d = src_id source ∧
                   doc_sourcePath d = path) ∧
      Forall (λ path, ParserService.canParse path = true ∧
                  ∃ stats, fs_stat fs path = Ok stats ∧
                           stat_size stats <= effectiveMaxSize source)
         (cs_extracted final)).
  { unfold final.
    pose proof (crawlSource_cases fs source store tick) as Hcases. cbv zeta in Hcases.
    destruct Hcases as [(_ & msg & _ & -> & -> & _)|(_ & _ & _ & -> & -> & _)].
    - split; [by left|constructor].
    - match goal with
      | |- context [crawlDirectory ?f ?s ?m ?r ?d ?st] =>
          pose proof (crawlDirectory_ownWrites f s m r d st) as [(new & He & Hnew) Hdocs];
          set (walked := crawlDirectory f s m r d st) in *
      end.
      simpl in *. rewrite app_nil_r in He. rewrite He. split; [|done].
      intros id. specialize (Hdocs id). by rewrite He in Hdocs. }
  destruct Hown as [Hdocs Hpaths]. split; [|done].
  intros id Hsome. destruct (Hdocs id) as [-> | (path & d & _ & _ & -> & _)]; eauto.
Qed.

(** X17.  With a negative [maxDepth] a run over an accessible local root
    reads no directory: it ends in [success] with all counters at 0, no
    error, and the documents as they were. *)
Theorem crawlSource_negative_depth (fs : FileSystem) (source : SourceConfig)
    (store : Store) (tick : nat) (f : Filters) (depth : Z) :
  src_type source = local →
  rootAccessible fs source = true →
  src_filters source = Some f →
  maxDepth f = Some depth →
  depth < 0 →
  let final := crawlSource fs source store tick in
  cs_result final = emptyResult ∧
  cs_extracted final = [] ∧
  documents (cs_store final) = documents store ∧
  currentStatus (src_id source) (cs_store final) = success.
Proof.
  intros Hty Hroot Hf Hdepth Hneg final.
  assert (Hzero : Z.to_nat (effectiveMaxDepth source - 0) = 0%nat).
  { unfold effectiveMaxDepth. rewrite Hf. simpl. rewrite Hdepth.
    destruct depth; simpl; lia. }
  unfold final, crawlSource, crawlByType, crawlLocalFiles, currentStatus,
    StorageService.getSourceStatus.
  rewrite Hty, Hroot, Hzero. simpl. rewrite lookup_insert_eq. done.
Qed.




(** After a run that did not end in an error the row of the source
    carries a later reading of the clock as [lastCrawled]. *)
Lemma crawlSource_lastCrawled_row (fs : FileSystem) (source : SourceConfig)
    (store : Store) (tick : nat) :
  src_type source = local →
  rootAccessible fs source = true →
  ∃ n, (tick + 2 <= n)%nat ∧
       StorageService.getSource (src_id source) (cs_store (crawlSource fs source store tick))
       = Some (StorageService.sourceRow (withLastCrawled (wall_clock n) source)).
Proof.
  intros Hty Hroot.
  pose proof (crawlSource_cases fs source store tick) as Hcases. cbv zeta in Hcases.
  destruct Hcases as [([Hne | Hno] & _)|(_ & _ & _ & _ & _ & Hsrc & _)]; [done|congruence|].
  eexists. split; [|unfold StorageService.getSource; rewrite Hsrc;
    rewrite lookup_insert_eq; simpl; by rewrite sourceRow_idem].
  match goal with
  | |- context [crawlDirectory ?f ?s ?m ?r ?d ?st] =>
      assert (tick + 2 <= cs_tick (crawlDirectory f s m r d st))%nat as Htick
  end; [|lia].
  apply (crawlDirectory_steps fs source _
           (λ a a', (tick + 2 <= cs_tick a → tick + 2 <= cs_tick a')%nat)); try done.
  - intros a b c Hab Hbc Ha. auto.
  - intros fullPath a Ha.
    destruct (crawlFile_cases fs source (effectiveMaxSize source) fullPath a)
      as [(m & _ & ->)|[(stats & _ & _ & ->)|[(stats & d & _ & _ & _ & _ & _ & ->)|
          (stats & _ & _ & _ & _ & ->)]]]; simpl; try done.
    destruct (parseAndSave_cases fs source fullPath (onResult incFound a))
      as [(doc & _ & ->)|(_ & ->)]; simpl; lia.
Qed.

(** X19.  [lastCrawled] records successful runs only: a run that ends in
    [error] leaves the sources table as it is; any other run stores the
    source it was given with a later reading of the clock as
    [lastCrawled].  The rows of the other sources are never touched. *)
Theorem crawlSource_lastCrawled (fs : FileSystem) (source : SourceConfig)
    (store : Store) (tick : nat) :
  let final := crawlSource fs source store tick in
  let fatal := negb (match src_type source with
                     | local => rootAccessible fs source
                     | _ => false
                     end) in
  (fatal = true → sources (cs_store final) = sources store) ∧
  (fatal = false →
   ∃ n, (tick + 2 <= n)%nat ∧
        StorageService.getSource (src_id source) (cs_store final)
        = Some (StorageService.sourceRow (withLastCrawled (wall_clock n) source))) ∧
  (∀ id, id ≠ src_id source →
         StorageService.getSource id (cs_store final) = StorageService.getSource id store).
Proof.
  intros final fatal. unfold final, fatal.
  pose proof (crawlSource_cases fs source store tick) as Hcases. cbv zeta in Hcases.
  destruct Hcases
    as [(Hfatal & msg & _ & _ & _ & Hsrc & _)|(Hty & Hroot & _ & _ & _ & Hsrc & _)].
  - split; [done|]. split.
    + destruct Hfatal as [Hty | Hroot].
      * destruct (src_type source); done.
      * rewrite Hroot. destruct (src_type source); done.
    + intros id _. unfold StorageService.getSource. by rewrite Hsrc.
  - split; [by rewrite Hty, Hroot|]. split.
    + intros _. by apply crawlSource_lastCrawled_row.
    + intros id Hid. unfold StorageService.getSource. rewrite Hsrc.
      by rewrite lookup_insert_ne.
Qed.

Lemma mapSet_keys {V : Type} (k : string) (v : V) (m : list (string * V)) (id : string) :
  id ∈ (mapSet k v m).*1 ↔ id = k ∨ id ∈ m.*1.
Proof.
  induction m as [|[k' v'] m IH]; simpl.
  - set_solver.
  - destruct (String.eqb_spec k k') as [-> | Hne]; simpl.
    + set_solver.
    + rewrite !elem_of_cons, IH. tauto.
Qed.

Lemma mapSet_NoDup {V : Type} (k : string) (v : V) (m : list (string * V)) :
  NoDup m.*1 → NoDup (mapSet k v m).*1.
Proof.
  induction m as [|[k' v'] m IH]; simpl.
  - intros _. apply NoDup_singleton.
  - rewrite NoDup_cons. intros [Hk' Hm].
    destruct (String.eqb_spec k k') as [-> | Hne]; simpl.
    + by apply NoDup_cons.
    + apply NoDup_cons. split; [|by apply IH].
      rewrite mapSet_keys. intros [? | ?]; [congruence|done].
Qed.

(** What one run does to the rows of the other sources, and to the
    documents that were stored. *)
Lemma crawlSource_others (fs : FileSystem) (source : SourceConfig) (store : Store)
    (tick : nat) :
  let final := crawlSource fs source store tick in
  (∀ id, id ≠ src_id source →
         source_status (cs_store final) !! id = source_status store !! id ∧
         sources (cs_store final) !! id = sources store !! id) ∧
  (∀ id, is_Some (documents store !! id) → is_Some (documents (cs_store final) !! id)).
Proof.
  intros final. unfold final.
  pose proof (crawlSource_cases fs source store tick) as Hcases. cbv zeta in Hcases.
  destruct Hcases
    as [(_ & msg & _ & _ & Hdocs & Hsrc & row & _ & _ & Hst)|
        (_ & _ & _ & _ & Hdocs & Hsrc & row & _ & _ & Hst)].
  - split.
    + intros id Hid. rewrite Hst, Hsrc. by rewrite lookup_insert_ne.
    + intros id. by rewrite Hdocs.
  - split.
    + intros id Hid. rewrite Hst, Hsrc. by rewrite !lookup_insert_ne.
    + intros id Hsome. rewrite Hdocs.
      match goal with
      | |- context [crawlDirectory ?f ?s ?m ?r ?d ?st] =>
          pose proof (crawlDirectory_ownWrites f s m r d st) as [_ Hown]
      end.
      destruct (Hown id) as [-> | (path & d & _ & _ & -> & _)]; eauto.
Qed.

Lemma crawlAll_loop (fs : FileSystem) (l : list SourceConfig)
    (m : list (string * CrawlResult)) (store : Store) (tick : nat) :
  let out :=
    foldl (λ acc source,
             let st := crawlSource fs source acc.1.2 acc.2 in
             (mapSet (src_id source) (cs_result st) acc.1.1, cs_store st, cs_tick st))
          (m, store, tick) l in
  (∀ id, id ∈ out.1.1.*1 ↔ id ∈ m.*1 ∨ id ∈ src_id <$> l) ∧
  (NoDup m.*1 → NoDup out.1.1.*1) ∧
  (∀ id, id ∉ src_id <$> l →
         source_status out.1.2 !! id = source_status store !! id ∧
         sources out.1.2 !! id = sources store !! id) ∧
  (∀ id, is_Some (documents store !! id) → is_Some (documents out.1.2 !! id)).
Proof.
  revert m store tick. induction l as [|source l IH]; intros m store tick; simpl.
  - split; [set_solver|]. done.
  - destruct (IH (mapSet (src_id source) (cs_result (crawlSource fs source store tick)) m)
                (cs_store (crawlSource fs source store tick))
                (cs_tick (crawlSource fs source store tick)))
      as (Hkeys & Hnd & Hrows & Hdocs).
    destruct (crawlSource_others fs source store tick) as [Hothers Hkeep].
    split; [|split; [|split]].
    + intros id. rewrite Hkeys, mapSet_keys, elem_of_cons. tauto.
    + intros Hm. apply Hnd. by apply mapSet_NoDup.
    + intros id Hid. rewrite not_elem_of_cons in Hid. destruct Hid as [Hne Hid].
      destruct (Hrows id Hid) as [H1 H2]. destruct (Hothers id Hne) as [H3 H4].
      split; [exact (eq_trans H1 H3) | exact (eq_trans H2 H4)].
    + intros id Hsome. apply Hdocs. by apply Hkeep.
Qed.

(** X20.  [crawlAllEnabledSources] answers with one result per enabled
    source and none for any other id.  The status row and the source row
    of an id that is not an enabled source are left as they are, and no
    stored document is deleted. *)
Theorem crawlAllEnabledSources_keys (fs : FileSystem) (store : Store) (tick : nat) :
  let out := crawlAllEnabledSources fs store tick in
  let enabled := List.filter src_enabled (StorageService.getAllSources store) in
  (∀ id, id ∈ out.1.1.*1 ↔ id ∈ src_id <$> enabled) ∧
  NoDup out.1.1.*1 ∧
  (∀ id, id ∉ src_id <$> enabled →
         StorageService.getSourceStatus id out.1.2 = StorageService.getSourceStatus id store ∧
         StorageService.getSource id out.1.2 = StorageService.getSource id store) ∧
  (∀ id, is_Some (documents store !! id) → is_Some (documents out.1.2 !! id)).
Proof.
  intros out enabled. unfold out, crawlAllEnabledSources. fold enabled.
  pose proof (crawlAll_loop fs enabled [] store tick) as Hloop. cbv zeta in Hloop.
  destruct Hloop as (Hkeys & Hnd & Hrows & Hdocs).
  split; [|split; [|split]].
  - intros id. rewrite Hkeys. set_solver.
  - apply Hnd. constructor.
  - intros id Hid. destruct (Hrows id Hid) as [Hst Hsrc].
    unfold StorageService.getSourceStatus, StorageService.getSource. by rewrite Hst, Hsrc.
  - done.
Qed.

End CrawlerExtras.

(** ** Search: the index and the listings by recency *)

Section SearchExtras.
Context {rt : Runtime}.
Import SearchService.
Import StorageService.
Import CrawlerService.

Lemma elem_of_concat {A : Type} (x : A) (ls : list (list A)) :
  x ∈ concat ls ↔ ∃ l, l ∈ ls ∧ x ∈ l.
Proof.
  induction ls as [|l ls IH]; simpl.
  - set_solver.
  - rewrite elem_of_app, IH. split.
    + intros [Hx | (l' & Hl' & Hx)]; [exists l | exists l']; set_solver.
    + intros (l' & Hl' & Hx). apply elem_of_cons in Hl' as [-> | Hl']; eauto.
Qed.

Lemma rebuildIndex_elem (store : Store) (tick : nat) (d : Document) :
  d ∈ idx_documents (rebuildIndex store tick).1 ↔
  ∃ id source, getDocument id store = Some d ∧ source ∈ getAllSources store ∧
               src_id source = doc_sourceId d.
Proof.
  unfold rebuildIndex. simpl. rewrite elem_of_concat. split.
  - intros (l & Hl & Hd). apply list_elem_of_fmap in Hl as (source & -> & Hsource).
    apply getDocumentsBySource_iff in Hd as (id & Hget & Hsid). eauto.
  - intros (id & source & Hget & Hsource & Hsid).
    exists (getDocumentsBySource (src_id source) store). split.
    + apply list_elem_of_fmap. eauto.
    + apply getDocumentsBySource_iff. eauto.
Qed.

(** X21.  [rebuildIndex] stamps the index with the clock and indexes
    exactly the stored documents whose source id is the id of a listed
    source: a document whose source has no row is not indexed. *)
Theorem rebuildIndex_contents (store : Store) (tick : nat) :
  let idx := (rebuildIndex store tick).1 in
  fuse_built idx = true ∧
  lastIndexUpdate idx = wall_clock tick ∧
  (∀ d, d ∈ idx_documents idx ↔
        ∃ id source, getDocument id store = Some d ∧ source ∈ getAllSources store ∧
                     src_id source = doc_sourceId d) ∧
  (∀ id d, getDocument id store = Some d →
           (∀ source, source ∈ getAllSources store → src_id source ≠ doc_sourceId d) →
           d ∉ idx_documents idx).
Proof.
  intros idx. split; [done|]. split; [done|]. split.
  - apply rebuildIndex_elem.
  - intros id d _ Horphan Hd.
    apply rebuildIndex_elem in Hd as (id' & source & _ & Hsource & Hsid).
    by apply (Horphan source).
Qed.

Lemma insertNewer_Permutation (x : Document) (l : list Document) :
  insertNewer x l ≡ₚ x :: l.
Proof.
  induction l as [|y l IH]; simpl; [done|].
  destruct (doc_updatedAt y <=? doc_updatedAt x); [done|].
  rewrite IH. apply Permutation_swap.
Qed.

Lemma sortNewestFirst_Permutation (l : list Document) : sortNewestFirst l ≡ₚ l.
Proof.
  induction l as [|x l IH]; simpl; [done|].
  unfold sortNewestFirst in *. simpl. by rewrite insertNewer_Permutation, IH.
Qed.

Lemma insertNewer_sorted (x : Document) (l : list Document) :
  StronglySorted newerFirst l → StronglySorted newerFirst (insertNewer x l).
Proof.
  induction l as [|y l IH]; simpl; intros Hl.
  - repeat constructor.
  - apply StronglySorted_cons in Hl as [Hy Hl].
    destruct (Z.leb_spec (doc_updatedAt y) (doc_updatedAt x)).
    + apply StronglySorted_cons. split.
      * constructor; [done|]. eapply Forall_impl; [exact Hy|].
        intros z. unfold newerFirst. lia.
      * by apply StronglySorted_cons.
    + apply StronglySorted_cons. split; [|by apply IH].
      rewrite insertNewer_Permutation. constructor; [|done]. unfold newerFirst. lia.
Qed.

Lemma sortNewestFirst_sorted (l : list Document) :
  StronglySorted newerFirst (sortNewestFirst l).
Proof.
  induction l as [|x l IH]; [constructor|].
  unfold sortNewestFirst in *. simpl. by apply insertNewer_sorted.
Qed.

Lemma slice0_take {A : Type} (n : Z) (l : list A) : ∃ k, JS.slice0 n l = take k l.
Proof. unfold JS.slice0. destruct (0 <=? n); eauto. Qed.

Lemma slice0_all {A : Type} (n : Z) (l : list A) :
  Z.of_nat (length l) <= n → JS.slice0 n l = l.
Proof.
  intros Hn. unfold JS.slice0. destruct (Z.leb_spec 0 n); [|lia].
  apply take_ge. lia.
Qed.

Lemma filter_nothing {A : Type} (f : A → bool) (l : list A) :
  (∀ x, x ∈ l → f x = false) → List.filter f l = [].
Proof.
  induction l as [|x l IH]; intros H; simpl; [done|].
  rewrite (H x) by left. apply IH. intros y Hy. apply H. by right.
Qed.

Lemma slice0_nil {A : Type} (n : Z) : JS.slice0 n (@nil A) = [].
Proof. unfold JS.slice0. destruct (0 <=? n); apply take_nil. Qed.

(** The [limit] newest of a list: what [sort] then [slice(0, limit)]
    gives. *)
Lemma newest_slice (limit : Z) (l : list Document) :
  let out := JS.slice0 limit (sortNewestFirst l) in
  (∀ d, d ∈ out → d ∈ l) ∧
  StronglySorted newerFirst out ∧
  (0 <= limit → Z.of_nat (length out) <= limit) ∧
  (Z.of_nat (length l) <= limit → out ≡ₚ l) ∧
  (∀ d d', d ∈ out → d' ∈ l → d' ∉ out → doc_updatedAt d' <= doc_updatedAt d).
Proof.
  intros out. unfold out.
  destruct (slice0_take limit (sortNewestFirst l)) as [k Hk].
  pose proof (sortNewestFirst_sorted l) as Hsorted.
  rewrite <- (take_drop k (sortNewestFirst l)) in Hsorted.
  split; [|split; [|split; [|split]]].
  - intros d Hd. apply slice0_subseteq in Hd. by rewrite sortNewestFirst_Permutation in Hd.
  - rewrite Hk. by apply StronglySorted_app_1_l in Hsorted.
  - apply slice0_length.
  - intros Hlen. rewrite slice0_all; [apply sortNewestFirst_Permutation|].
    by rewrite sortNewestFirst_Permutation.
  - rewrite Hk. intros d d' Hd Hd' Hnot.
    rewrite <- sortNewestFirst_Permutation, <- (take_drop k (sortNewestFirst l)) in Hd'.
    apply elem_of_app in Hd' as [Hd' | Hd']; [done|].
    exact (StronglySorted_app_1_elem_of _ _ _ _ _ Hsorted Hd Hd').
Qed.

(** X22.  [searchByType] returns indexed documents of the type asked
    for only, newest first, at most [limit] of them when the limit is not
    negative; a document of the type that is left out is not newer than
    any that is returned; and a string that names no document type finds
    nothing. *)
Theorem searchByType_spec (type : string) (limit : Z) (store : Store) (tick : nat) :
  let out := (searchByType type limit store tick).1.1 in
  (∀ d, d ∈ out →
        typeName (doc_type d) = type ∧
        ∃ id source, getDocument id store = Some d ∧ source ∈ getAllSources store ∧
                     src_id source = doc_sourceId d) ∧
  StronglySorted newerFirst out ∧
  (0 <= limit → Z.of_nat (length out) <= limit) ∧
  (∀ d d', d ∈ out → d' ∈ idx_documents (rebuildIndex store tick).1 →
           typeName (doc_type d') = type → d' ∉ out →
           doc_updatedAt d' <= doc_updatedAt d) ∧
  ((∀ t, typeName t ≠ type) → out = []).
Proof.
  intros out. unfold out, searchByType.
  destruct (rebuildIndex store tick) as [idx tick1] eqn:Hidx. simpl.
  assert (Hi : idx = (rebuildIndex store tick).1) by by rewrite Hidx.
  match goal with
  | |- context [JS.slice0 limit (sortNewestFirst ?l)] =>
      pose proof (newest_slice limit l) as Hn; cbv zeta in Hn;
      destruct Hn as (Hsub & Hsorted & Hlen & _ & Htop)
  end.
  split; [|split; [done|split; [done|split]]].
  - intros d Hd. apply Hsub in Hd. apply filter_keeps in Hd as [Hd Ht].
    apply String.eqb_eq in Ht. split; [done|].
    apply (rebuildIndex_elem store tick). by rewrite <- Hi.
  - intros d d' Hd Hd' Ht Hnot. apply (Htop d d'); [done| |done].
    apply filter_keeps. split; [done|]. by apply String.eqb_eq.
  - intros Hnone. rewrite filter_nothing; [apply slice0_nil|].
    intros d _. apply String.eqb_neq. apply Hnone.
Qed.


Lemma sharesTag_spec (tags : list string) (d : Document) :
  sharesTag tags d = true ↔
  ∃ docTags tag, doc_tags d = Some docTags ∧ tag ∈ docTags ∧ tag ∈ tags.
Proof.
  unfold sharesTag. destruct (doc_tags d) as [docTags|].
  - rewrite existsb_exists. split.
    + intros (tag & Hin & Htag). apply bool_decide_eq_true in Htag.
      exists docTags, tag. by rewrite list_elem_of_In.
    + intros (docTags' & tag & [= <-] & Hin & Htag). exists tag.
      rewrite <- list_elem_of_In. split; [done|]. by apply bool_decide_eq_true.
  - split; [done|]. by intros (? & ? & ? & _).
Qed.

(** X23.  [searchByTags] returns indexed documents that carry one of the
    tags asked for, newest first, at most [limit] of them when the limit
    is not negative.  An empty list of tags finds nothing, and when the
    limit is at least the size of the index every indexed document with
    one of the tags is returned. *)
Theorem searchByTags_spec (tags : list string) (limit : Z) (store : Store) (tick : nat) :
  let out := (searchByTags tags limit store tick).1.1 in
  let indexed := idx_documents (rebuildIndex store tick).1 in
  (∀ d, d ∈ out →
        d ∈ indexed ∧
        ∃ docTags tag, doc_tags d = Some docTags ∧ tag ∈ docTags ∧ tag ∈ tags) ∧
  StronglySorted newerFirst out ∧
  (0 <= limit → Z.of_nat (length out) <= limit) ∧
  (tags = [] → out = []) ∧
  (Z.of_nat (length indexed) <= limit →
   ∀ d docTags tag, d ∈ indexed → doc_tags d = Some docTags → tag ∈ docTags → tag ∈ tags →
                    d ∈ out).
Proof.
  intros out indexed. unfold out, indexed, searchByTags.
  destruct (rebuildIndex store tick) as [idx tick1] eqn:Hidx. simpl.
  match goal with
  | |- context [JS.slice0 limit (sortNewestFirst ?l)] =>
      pose proof (newest_slice limit l) as Hn; cbv zeta in Hn;
      destruct Hn as (Hsub & Hsorted & Hlen & Hall & _)
  end.
  split; [|split; [done|split; [done|split]]].
  - intros d Hd. apply Hsub in Hd. apply filter_keeps in Hd as [Hd Ht].
    split; [done|]. by apply sharesTag_spec.
  - intros ->. rewrite filter_nothing; [apply slice0_nil|].
    intros d _. unfold sharesTag. destruct (doc_tags d) as [docTags|]; [|done].
    induction docTags as [|t docTags IH]; [done|]. cbn [existsb].
    rewrite bool_decide_eq_false_2 by set_solver. done.
  - intros Hbig d docTags tag Hd Htags Hin Htag.
    rewrite Hall.
    + apply filter_keeps. split; [done|]. apply sharesTag_spec. eauto.
    + etrans; [|exact Hbig]. apply inj_le.
      clear. induction (idx_documents idx) as [|x l IH]; simpl; [lia|].
      destruct (sharesTag tags x); simpl; lia.
Qed.

(** X24.  [getRecentDocuments] returns the newest documents of the
    index, newest first: at most [limit] of them when the limit is not
    negative, all of them when the limit is at least the size of the
    index, and no document left out is newer than one returned. *)
Theorem getRecentDocuments_newest (limit : Z) (store : Store) (tick : nat) :
  let out := (getRecentDocuments limit store tick).1 in
  let indexed := idx_documents (rebuildIndex store tick).1 in
  (∀ d, d ∈ out → d ∈ indexed) ∧
  StronglySorted newerFirst out ∧
  (0 <= limit → Z.of_nat (length out) <= limit) ∧
  (Z.of_nat (length indexed) <= limit → out ≡ₚ indexed) ∧
  (∀ d d', d ∈ out → d' ∈ indexed → d' ∉ out → doc_updatedAt d' <= doc_updatedAt d).
Proof.
  intros out indexed. unfold out, indexed, getRecentDocuments.
  destruct (rebuildIndex store tick) as [idx tick1] eqn:Hidx. simpl.
  apply newest_slice.
Qed.

(** X25.  Queries that find nothing.  A query of white space alone gives
    no result, after the index has been refreshed as for any query.
    [getSimilarDocuments] gives no result for an id that is not stored,
    without touching the index or the clock, and for a document whose
    title is blank and that has no tags. *)
Theorem search_blank_query (query : string) (options : SearchOptions)
    (idx : SearchIndex) (store : Store) (tick : nat) (documentId : string) (limit : Z) :
  (JS.trim query = EmptyString →
   (search query options idx store tick).1.1 = [] ∧
   (search query options idx store tick).1.2 = (refresh idx store tick).1) ∧
  (StorageService.getDocument documentId store = None →
   getSimilarDocuments documentId limit idx store tick = ([], idx, tick)) ∧
  (∀ doc, StorageService.getDocument documentId store = Some doc →
          JS.trim (doc_title doc) = EmptyString → default [] (doc_tags doc) = [] →
          (getSimilarDocuments documentId limit idx store tick).1.1 = []).
Proof.
  assert (Hblank : ∀ q o, JS.trim q = EmptyString →
                          (search q o idx store tick).1.1 = []).
  { intros q o Hq. pose proof (search_unfold q o idx store tick) as Hs. cbv zeta in Hs.
    destruct Hs as [_ ->]. rewrite Hq. cbn. by rewrite orb_true_r. }
  split; [|split].
  - intros Hq. split; [by apply Hblank|].
    pose proof (search_unfold query options idx store tick) as Hs. cbv zeta in Hs.
    by destruct Hs as [-> _].
  - intros Hnone. unfold getSimilarDocuments. by rewrite Hnone.
  - intros doc Hdoc Htitle Htags. unfold getSimilarDocuments. rewrite Hdoc.
    specialize (Hblank (similarityQuery doc) (limitOnly (limit + 1))).
    destruct (search (similarityQuery doc) (limitOnly (limit + 1)) idx store tick)
      as [[results idx1] tick1].
    cbn in *. rewrite Hblank; [done|].
    unfold similarityQuery. rewrite Htags. cbn. exact Htitle.
Qed.





End SearchExtras.

(** ** Tool handlers *)

Section ToolsExtras.
Context {rt : Runtime}.
Import ToolsHandler.
Import StorageService.

(** X28.  [handleDeleteSource] throws for an id that [getSource] does not
    find.  For a source that exists the answer always carries
    [success = true] and the message with the name of the source;
    afterwards the source, its status row and its documents are gone,
    and the other sources, their status rows and their documents are as
    before. *)
Theorem handleDeleteSource_spec (sourceId : string) (store : Store) :
  (getSource sourceId store = None →
   handleDeleteSource sourceId store = Throw ("Source not found: " +:+ sourceId)) ∧
  (∀ source, getSource sourceId store = Some source →
     ∃ store',
       handleDeleteSource sourceId store
       = Ok (true, "Source '" +:+ src_name source +:+ "' deleted successfully", store') ∧
       getSource sourceId store' = None ∧
       getSourceStatus sourceId store' = None ∧
       getDocumentsBySource sourceId store' = [] ∧
       (∀ id, id ≠ sourceId →
              getSource id store' = getSource id store ∧
              getSourceStatus id store' = getSourceStatus id store) ∧
       (∀ id d, getDocument id store = Some d → doc_sourceId d ≠ sourceId →
                getDocument id store' = Some d)).
Proof.
  unfold handleDeleteSource. split.
  - by intros ->.
  - intros source Hget. rewrite Hget.
    assert (Hrow : is_Some (sources store !! sourceId)).
    { unfold getSource in Hget. destruct (sources store !! sourceId); [eauto|done]. }
    unfold deleteSource, deleteSourceRow. cbn.
    rewrite bool_decide_eq_true_2 by done.
    eexists. split; [reflexivity|].
    unfold getSource, getSourceStatus. cbn. rewrite !lookup_delete_eq.
    split; [done|]. split; [done|]. split; [|split].
    + apply getDocumentsBySource_nil. cbn. intros k d Hk.
      by apply map_lookup_filter_Some in Hk as [_ Hne].
    + intros id Hid. by rewrite !lookup_delete_ne.
    + intros id d Hd Hne. unfold getDocument in *. cbn.
      destruct (documents store !! id) as [row|] eqn:Hrow'; [|done].
      injection Hd as <-.
      rewrite (proj2 (map_lookup_filter_Some _ _ id row)); [done|]. split; [done|].
      exact Hne.
Qed.

(** X29.  [handleUpdateSource] throws for an id that [getSource] does not
    find.  Otherwise it stores the source with its id, type, url,
    schedule and [lastCrawled] unchanged; the name changes only to a name
    that is given and not empty; [enabled] changes to the value given,
    [false] included; each key of the filters takes the value given and
    keeps the old one when none is given.  Other sources, documents and
    status rows are untouched. *)
Theorem handleUpdateSource_spec (args : UpdateSourceArgs) (store : Store) :
  (getSource (upd_source_id args) store = None →
   handleUpdateSource args store
   = Throw ("Source not found: " +:+ upd_source_id args)) ∧
  (∀ source, getSource (upd_source_id args) store = Some source →
     ∃ message store' updated,
       handleUpdateSource args store = Ok (message, store') ∧
       getSource (src_id source) store' = Some updated ∧
       src_id updated = src_id source ∧
       src_type updated = src_type source ∧
       src_url updated = src_url source ∧
       src_schedule updated = src_schedule source ∧
       src_lastCrawled updated = src_lastCrawled source ∧
       src_name updated = match upd_name args with
                          | Some (String c name) => String c name
                          | _ => src_name source
                          end ∧
       src_enabled updated = default (src_enabled source) (upd_enabled args) ∧
       (upd_filters args = None → src_filters updated = src_filters source) ∧
       (∀ f, upd_filters args = Some f →
             ∃ merged, src_filters updated = Some merged ∧
               include merged = from_option Some (src_filters source ≫= include) (include f) ∧
               exclude merged = from_option Some (src_filters source ≫= exclude) (exclude f) ∧
               maxDepth merged = from_option Some (src_filters source ≫= maxDepth) (maxDepth f) ∧
               maxSize merged = from_option Some (src_filters source ≫= maxSize) (maxSize f)) ∧
       (∀ id, id ≠ src_id source → getSource id store' = getSource id store) ∧
       documents store' = documents store ∧
       source_status store' = source_status store).
Proof.
  unfold handleUpdateSource. split.
  - by intros ->.
  - intros source Hget. rewrite Hget.
    assert (Hnorm : sourceRow source = source).
    { unfold getSource in Hget. destruct (sources store !! upd_source_id args); [|done].
      injection Hget as <-. apply sourceRow_idem. }
    apply sourceRow_fixed in Hnorm as [Hsch Hlc].
    eexists _, _, _. split; [reflexivity|].
    unfold getSource. cbn. rewrite lookup_insert_eq. cbn.
    split; [rewrite sourceRow_idem; reflexivity|]. cbn.
    split; [done|]. split; [done|]. split; [done|].
    split; [|split; [|split; [|split; [done|split; [|split; [|split; [|done]]]]]]].
    + destruct (src_schedule source) as [[|]|]; done.
    + destruct (src_lastCrawled source) as [[| |]|]; done.
    + destruct (upd_name args) as [[|]|]; done.
    + by intros ->.
    + intros f ->. eexists. split; [reflexivity|]. unfold mergeFilters. cbn.
      destruct (include f), (exclude f), (maxDepth f), (maxSize f); done.
    + intros id Hid. by rewrite lookup_insert_ne.
Qed.


End ToolsExtras.

(** ** The further properties at concrete inputs *)

Section ExtraExamples.
Import Fixtures.

(** X10 at a run that takes no measurable time: the row written last is
    the one read, without its duration of 0. *)
Lemma updateSourceStatus_getSourceStatus_witness :
  let first := {| st_sourceId := "s1"; st_status := crawling; st_lastRun := Some 900;
                  st_lastError := None; st_documentsFound := 0;
                  st_documentsProcessed := 0; st_documentsSkipped := 0;
                  st_duration := None |} in
  let last := {| st_sourceId := "s1"; st_status := success; st_lastRun := Some 900;
                 st_lastError := None; st_documentsFound := 2;
                 st_documentsProcessed := 2; st_documentsSkipped := 0;
                 st_duration := Some 0 |} in
  let s' := StorageService.updateSourceStatus last
              (StorageService.updateSourceStatus first (sourceOnly None)) in
  StorageService.getSourceStatus "s1" s' = Some (StorageService.statusRow last) ∧
  st_duration <$> StorageService.getSourceStatus "s1" s' = Some None.
Proof.
  intros first last s'.
  pose proof (updateSourceStatus_getSourceStatus first last (sourceOnly None) eq_refl)
    as (H & _).
  split; [exact H|]. vm_compute. reflexivity.
Defined.

(** X11 at a file whose modification time, 5000, is ahead of the clock,
    which reads 1000. *)
Lemma parseFile_provenance_witness :
  ∃ doc,
    (ParserService.parseFile (rt := host) futureFile "/docs/guide.md" "s1" 0).1 = Some doc ∧
    doc_sourcePath doc = "/docs/guide.md"%string ∧
    doc_checksum doc = Some "md5(Setup notes)"%string ∧
    doc_updatedAt doc = 1000.
Proof.
  eexists. split; [vm_compute; reflexivity|].
  destruct (parseFile_provenance (rt := host) futureFile "/docs/guide.md" "s1" 0 _ eq_refl)
    as (stats & buffer & _ & _ & _ & Hpath & _).
  split; [exact Hpath|]. split; vm_compute; reflexivity.
Defined.

(** X12 at the file /docs/guide.md. *)
Lemma parseFile_metadata_witness :
  ∃ doc metadata,
    (ParserService.parseFile (rt := host) oneFile "/docs/guide.md" "s1" 0).1 = Some doc ∧
    doc_metadata doc = Some metadata ∧
    objGet "fileName" metadata = Some (JStr "guide.md") ∧
    objGet "extension" metadata = Some (JStr ".md") ∧
    objGet "directory" metadata = Some (JStr "/docs").
Proof.
  destruct (parseFile_metadata (rt := host) oneFile "/docs/guide.md" "s1" 0 _ eq_refl)
    as (metadata & buffer & parseResult & documentType & Hm & Hf & He & Hd & _).
  eexists _, metadata. split; [reflexivity|]. split; [exact Hm|].
  split; [exact Hf|]. split; [exact He|exact Hd].
Defined.

(** X13 at an image: handed to the parser directly, it comes out as a
    text document. *)
Lemma parseFile_unsupported_as_text_witness :
  ∃ doc,
    ParserService.parseFile (rt := host) withImage "/docs/logo.png" "s1" 0
    = (Some doc, 1%nat) ∧
    doc_type doc = text ∧ doc_content doc = "PNG"%string.
Proof.
  destruct (parseFile_unsupported_as_text (rt := host) withImage "/docs/logo.png" "s1" 0
              (fileStats 64 400) "PNG"%string eq_refl eq_refl eq_refl)
    as (doc & Hparse & Htype & Hcontent & _).
  exists doc. split; [exact Hparse|]. split; [exact Htype|exact Hcontent].
Defined.

(** X17 at a source with [maxDepth] -1 over a directory that holds a
    file. *)
Lemma crawlSource_negative_depth_witness :
  let filters := {| include := None; exclude := None; maxDepth := Some (-1);
                    maxSize := None |} in
  let final := CrawlerService.crawlSource (rt := host) oneFile (localSource (Some filters))
                 (sourceOnly (Some filters)) 0 in
  cs_result final = CrawlerService.emptyResult ∧
  documents (cs_store final) = ∅ ∧
  currentStatus "s1" (cs_store final) = success.
Proof.
  intros filters final.
  pose proof (crawlSource_negative_depth (rt := host) oneFile (localSource (Some filters))
                (sourceOnly (Some filters)) 0 filters (-1)
                eq_refl eq_refl eq_refl eq_refl eq_refl)
    as (Hresult & _ & Hdocs & Hstatus).
  split; [exact Hresult|]. split; [exact Hdocs|exact Hstatus].
Defined.




(** X28 at the store with source s1 and its three documents. *)
Lemma handleDeleteSource_spec_witness :
  ∃ store',
    ToolsHandler.handleDeleteSource "s1" threeDocs
    = Ok (true, "Source 'docs' deleted successfully"%string, store') ∧
    StorageService.getSource "s1" store' = None ∧
    StorageService.getDocumentsBySource "s1" store' = [].
Proof.
  eassert (StorageService.getSource "s1" threeDocs = Some _) as Hget
    by (vm_compute; reflexivity).
  destruct (proj2 (handleDeleteSource_spec "s1" threeDocs) _ Hget)
    as (store' & Hcall & Hsource & _ & Hdocs & _).
  exists store'. split; [exact Hcall|]. split; [exact Hsource|exact Hdocs].
Defined.

(** X29 at an update that gives an empty name, disables the source and
    sets an include pattern. *)
Lemma handleUpdateSource_spec_witness :
  let args := {| upd_source_id := "s1"; upd_name := Some EmptyString;
                 upd_enabled := Some false;
                 upd_filters := Some {| include := Some ["*.md"%string]; exclude := None;
                                        maxDepth := None; maxSize := None |} |} in
  ∃ message store' updated,
    ToolsHandler.handleUpdateSource args threeDocs = Ok (message, store') ∧
    StorageService.getSource "s1" store' = Some updated ∧
    src_name updated = "docs"%string ∧
    src_enabled updated = false ∧
    documents store' = documents threeDocs.
Proof.
  intros args.
  eassert (StorageService.getSource (upd_source_id args) threeDocs = Some _) as Hget
    by (vm_compute; reflexivity).
  destruct (proj2 (handleUpdateSource_spec args threeDocs) _ Hget)
    as (message & store' & updated & Hcall & Hread & _ & _ & _ & _ & _ & Hname & Henabled
        & _ & _ & _ & Hdocs & _).
  exists message, store', updated.
  split; [exact Hcall|]. split; [exact Hread|]. split; [exact Hname|].
  split; [exact Henabled|exact Hdocs].
Defined.


End ExtraExamples.
